(** * GA4 client-id / session-id extractor: a shallow embedding

    The development follows [src/ga4-id-extractor.js].  JavaScript strings
    are sequences of UTF-16 code units, the ambient browser state
    ([document.cookie], [window.gtag], [window.google_tag_manager]) is an
    explicit environment, exceptions are an explicit result, and the
    promises of the asynchronous resolvers are described by the instant at
    which they settle and the value they settle with. *)

From Stdlib Require Import List NArith ZArith Lia Bool String Ascii.
Import ListNotations.

Set Implicit Arguments.

(** ** Strings and values *)

(** A JavaScript string: its UTF-16 code units. *)
Definition jsstring : Type := list N.

(** An ASCII literal of the source, as code units. *)
Definition str (s : string) : jsstring :=
  map N_of_ascii (list_ascii_of_string s).

(** The primitive values the live API may hand to its callback. *)
Inductive jsval : Type :=
| JUndefined
| JNull
| JBool (b : bool)
| JNum (z : Z)
| JNaN
| JStr (s : jsstring).

(** ToBoolean. *)
Definition truthy (v : jsval) : bool :=
  match v with
  | JUndefined | JNull | JNaN => false
  | JBool b => b
  | JNum z => negb (Z.eqb z 0)
  | JStr s => match s with [] => false | _ :: _ => true end
  end.

(** [v || ''] *)
Definition or_empty (v : jsval) : jsval :=
  if truthy v then v else JStr [].

(** ** Exceptions and completions *)

Inductive exn : Type :=
| URIError
| TypeError
| ReferenceError
| UserError (message : jsstring).

Inductive completion (A : Type) : Type :=
| Normal (a : A)
| Throw (e : exn).
Arguments Normal {A} a.
Arguments Throw {A} e.

Definition cmap {A B} (f : A -> B) (c : completion A) : completion B :=
  match c with
  | Normal a => Normal (f a)
  | Throw e => Throw e
  end.

(** ** The string methods the source uses *)

Module JsString.

(** [strip_prefix p s] is the rest of [s] after its prefix [p]. *)
Fixpoint strip_prefix (p s : jsstring) : option jsstring :=
  match p, s with
  | [], _ => Some s
  | a :: p', b :: s' => if N.eqb a b then strip_prefix p' s' else None
  | _ :: _, [] => None
  end.

(** [s.replace(/pat/, rep)] for a pattern that is a plain literal and a
    replacement without [$]: the leftmost occurrence is replaced. *)
Fixpoint replace_first (pat rep s : jsstring) : jsstring :=
  match strip_prefix pat s with
  | Some rest => rep ++ rest
  | None =>
      match s with
      | [] => []
      | c :: s' => c :: replace_first pat rep s'
      end
  end.

(** [s.indexOf(pat)] *)
Fixpoint index_of (pat s : jsstring) : option nat :=
  match strip_prefix pat s with
  | Some _ => Some 0
  | None =>
      match s with
      | [] => None
      | _ :: s' => option_map S (index_of pat s')
      end
  end.

(** [s.split(sep)] for a one-unit separator; [''.split('.')] is [['']]. *)
Fixpoint split (sep : N) (s : jsstring) : list jsstring :=
  match s with
  | [] => [[]]
  | c :: s' =>
      if N.eqb c sep then [] :: split sep s'
      else
        match split sep s' with
        | f :: fs => (c :: f) :: fs
        | [] => [[c]]
        end
  end.

(** [parts[i]] of an index known to be in range. *)
Definition field (i : nat) (parts : list jsstring) : jsstring :=
  nth i parts [].

(** [parts.join(sep)] *)
Fixpoint join (sep : N) (parts : list jsstring) : jsstring :=
  match parts with
  | [] => []
  | [f] => f
  | f :: fs => f ++ sep :: join sep fs
  end.

End JsString.

(** ** Regular expressions: the fragment [readCookie] builds *)

Module RegExp.

(** The class [[-.$?*|{}()[\]\\/+^]] of [readCookie]'s replace. *)
Definition is_meta (c : N) : bool :=
  existsb (N.eqb c) (str "-.$?*|{}()[]\/+^").

(** [name.replace(/[-.$?*|{}()[\]\\/+^]/g, '\\$&')] *)
Definition escape (name : jsstring) : jsstring :=
  flat_map (fun c => if is_meta c then [92%N; c] else [c]) name.

(** SyntaxCharacter of the pattern grammar. *)
Definition is_syntax (c : N) : bool :=
  existsb (N.eqb c) (str "^$\.*+?()[]{}|").

(** A pattern source read as a run of literal atoms: a pattern character,
    or a backslash before a character that escapes itself.  [None] when
    the source holds anything else. *)
Fixpoint literal_atoms (src : jsstring) : option jsstring :=
  match src with
  | [] => Some []
  | c :: rest =>
      if N.eqb c 92 then
        match rest with
        | d :: rest' =>
            if is_syntax d || N.eqb d 47 || N.eqb d 45 then
              option_map (cons d) (literal_atoms rest')
            else None
        | [] => None
        end
      else if is_syntax c then None
      else option_map (cons c) (literal_atoms rest)
  end.

(** [\s]: WhiteSpace and LineTerminator code units. *)
Definition is_space (c : N) : bool :=
  existsb (N.eqb c)
    [9; 10; 11; 12; 13; 32; 160; 5760; 8232; 8233; 8239; 8287; 12288; 65279]%N
  || (N.leb 8192 c && N.leb c 8202).

(** [[^;]] *)
Definition not_semicolon (c : N) : bool := negb (N.eqb c 59).

Section Backtracking.
Variable R : Type.

(** What is left of the pattern, run on what is left of the input. *)
Definition cont : Type := jsstring -> option R.

(** [p*], greedy: the longest run first, then shorter ones. *)
Fixpoint star (p : N -> bool) (k : cont) (s : jsstring) : option R :=
  match s with
  | [] => k []
  | c :: s' =>
      if p c then
        match star p k s' with
        | Some r => Some r
        | None => k s
        end
      else k s
  end.

(** A literal run of characters. *)
Definition lit (l : jsstring) (k : cont) (s : jsstring) : option R :=
  match JsString.strip_prefix l s with
  | Some rest => k rest
  | None => None
  end.

(** [(^|;)]: the start of the input first, then a semicolon. *)
Definition bol_or_semicolon (bol : bool) (k : cont) (s : jsstring)
  : option R :=
  match (if bol then k s else None) with
  | Some r => Some r
  | None =>
      match s with
      | c :: s' => if N.eqb c 59 then k s' else None
      | [] => None
      end
  end.
End Backtracking.

(** The longest prefix of [s] whose units satisfy [p]. *)
Fixpoint span (p : N -> bool) (s : jsstring) : jsstring :=
  match s with
  | [] => []
  | c :: s' => if p c then c :: span p s' else []
  end.

(** [([^;]+)] at the end of the pattern: the greedy run is the match. *)
Definition capture_plus (p : N -> bool) (s : jsstring) : option jsstring :=
  match span p s with
  | [] => None
  | v => Some v
  end.

(** [\s*NAME\s*=\s*([^;]+)], yielding capture group 2. *)
Definition after_anchor (name : jsstring) : jsstring -> option jsstring :=
  star is_space
    (lit name
       (star is_space
          (lit [61%N]
             (star is_space (capture_plus not_semicolon))))).

(** The whole pattern tried at one position of the input. *)
Definition match_at (bol : bool) (name s : jsstring) : option jsstring :=
  bol_or_semicolon bol (after_anchor name) s.

(** The leftmost position at which the pattern matches. *)
Fixpoint exec (bol : bool) (name s : jsstring) : option jsstring :=
  match match_at bol name s with
  | Some v => Some v
  | None =>
      match s with
      | [] => None
      | _ :: s' => exec false name s'
      end
  end.

(** [input.match('(^|;)\\s*' + escape name + '\\s*=\\s*([^;]+)')], then
    [.pop()] on a match: the last capture group. *)
Definition match_cookie (name input : jsstring) : option jsstring :=
  exec true name input.

(** The source text of the pattern. *)
Definition cookie_pattern (name : jsstring) : jsstring :=
  str "(^|;)\s*" ++ escape name ++ str "\s*=\s*([^;]+)".

End RegExp.

(** ** [decodeURIComponent] *)

Module URI.

Definition hex_digit (c : N) : option N :=
  if N.leb 48 c && N.leb c 57 then Some (c - 48)%N
  else if N.leb 65 c && N.leb c 70 then Some (c - 55)%N
  else if N.leb 97 c && N.leb c 102 then Some (c - 87)%N
  else None.

(** [%XY] at the head of [s]: the octet and the rest. *)
Definition parse_octet (s : jsstring) : option (N * jsstring) :=
  match s with
  | p :: h :: l :: rest =>
      if N.eqb p 37 then
        match hex_digit h, hex_digit l with
        | Some a, Some b => Some (16 * a + b, rest)%N
        | _, _ => None
        end
      else None
  | _ => None
  end.

(** The number of leading 1 bits of an octet (5 stands for 5 or more). *)
Definition leading_ones (b : N) : nat :=
  if N.ltb b 128 then 0
  else if N.ltb b 192 then 1
  else if N.ltb b 224 then 2
  else if N.ltb b 240 then 3
  else if N.ltb b 248 then 4
  else 5.

Fixpoint parse_octets (n : nat) (s : jsstring) : option (list N) :=
  match n with
  | O => Some []
  | S n' =>
      match parse_octet s with
      | Some (b, rest) => option_map (cons b) (parse_octets n' rest)
      | None => None
      end
  end.

Definition between (lo b hi : N) : bool := N.leb lo b && N.leb b hi.

Definition low6 (b : N) : N := (b - 128)%N.

(** The code point of a well-formed UTF-8 sequence of 2, 3 or 4 octets:
    no overlong form, no surrogate, nothing above U+10FFFF. *)
Definition utf8_code_point (octets : list N) : option N :=
  match octets with
  | [b0; b1] =>
      if between 194 b0 223 && between 128 b1 191
      then Some ((b0 - 192) * 64 + low6 b1)%N else None
  | [b0; b1; b2] =>
      if between 224 b0 239
         && between (if N.eqb b0 224 then 160 else 128) b1
                    (if N.eqb b0 237 then 159 else 191)
         && between 128 b2 191
      then Some ((b0 - 224) * 4096 + low6 b1 * 64 + low6 b2)%N else None
  | [b0; b1; b2; b3] =>
      if between 240 b0 244
         && between (if N.eqb b0 240 then 144 else 128) b1
                    (if N.eqb b0 244 then 143 else 191)
         && between 128 b2 191 && between 128 b3 191
      then Some ((b0 - 240) * 262144 + low6 b1 * 4096
                 + low6 b2 * 64 + low6 b3)%N
      else None
  | _ => None
  end.

(** UTF16EncodeCodePoint *)
Definition utf16_encode (cp : N) : jsstring :=
  if N.ltb cp 65536 then [cp]
  else [55296 + (cp - 65536) / 1024; 56320 + (cp - 65536) mod 1024]%N.

(** One escape sequence at the head of [s] (which starts with [%]): the
    code units it decodes to and how many units of [s] it takes. *)
Definition decode_escape (s : jsstring) : option (jsstring * nat) :=
  match parse_octet s with
  | None => None
  | Some (b, rest) =>
      match leading_ones b with
      | 0 => Some ([b], 3)
      | 1 => None
      | S (S (S (S (S _)))) => None
      | n =>
          match parse_octets (n - 1) rest with
          | Some more =>
              option_map (fun cp => (utf16_encode cp, 3 * n))
                         (utf8_code_point (b :: more))
          | None => None
          end
      end
  end.

(** The decoding loop; [skip] counts the units of an escape sequence that
    the index has still to step over. *)
Fixpoint decode (skip : nat) (s : jsstring) : completion jsstring :=
  match s with
  | [] => Normal []
  | c :: s' =>
      match skip with
      | S k => decode k s'
      | O =>
          if N.eqb c 37 then
            match decode_escape s with
            | Some (out, used) => cmap (app out) (decode (used - 1) s')
            | None => Throw URIError
            end
          else cmap (cons c) (decode 0 s')
      end
  end.

Definition decodeURIComponent (s : jsstring) : completion jsstring :=
  decode 0 s.

End URI.

(** ** The ambient browser state *)

(** What one call [gtag('get', id, property, callback)] does with its
    callback: the values it passes to it before it returns, the exception
    it then throws if it throws, and the values later tasks pass to it,
    each with the time elapsed since the previous invocation. *)
Record gtag_run : Type := {
  sync_values : list jsval;
  sync_throw : option exn;
  later_values : list (N * jsval)
}.

(** The global [gtag]: not declared, declared but not callable, or a
    function of the measurement id and the property name. *)
Inductive gtag_binding : Type :=
| Undeclared
| NotCallable
| Callable (f : jsstring -> jsstring -> gtag_run).

(** The globals the code reads, at one instant. *)
Record env : Type := {
  document_cookie : jsstring;
  window_gtag : gtag_binding;
  window_google_tag_manager : bool  (* is it other than undefined? *)
}.

(** What the code does to its surroundings. *)
Inductive effect : Type :=
| ReadCookie
| CallGtag (measurementId property : jsstring)
| Warn (message : jsstring) (error : exn)
| SetTimeout (ms : N).

(** Synchronous code: it reads the environment, leaves a trace of effects,
    and returns or throws. *)
Definition M (A : Type) : Type := env -> list effect * completion A.

Definition ret {A} (a : A) : M A := fun _ => ([], Normal a).

Definition bind {A B} (m : M A) (f : A -> M B) : M B :=
  fun e =>
    match m e with
    | (t1, Normal a) => let (t2, r) := f a e in (t1 ++ t2, r)
    | (t1, Throw x) => (t1, Throw x)
    end.

Notation "x <- m ;; k" := (bind m (fun x => k))
  (at level 61, m at next level, right associativity).

Definition lift {A} (c : completion A) : M A := fun _ => ([], c).

Definition read_document_cookie : M jsstring :=
  fun e => ([ReadCookie], Normal (document_cookie e)).

Definition console_warn (message : jsstring) (error : exn) : M unit :=
  fun _ => ([Warn message error], Normal tt).

Definition trace {A} (r : list effect * A) : list effect := fst r.
Definition result {A} (r : list effect * completion A) : completion A := snd r.

(** ** The cookie reader (source lines 7-28) *)

Definition readCookie (name : jsstring) : M jsstring :=
  cookie <- read_document_cookie ;;
  match RegExp.match_cookie name cookie with
  | Some m => lift (URI.decodeURIComponent m)
  | None => ret []
  end.

Definition getClientIdFromCookie : M jsstring :=
  v <- readCookie (str "_ga") ;;
  match v with
  | [] => ret []
  | _ =>
      let parts := JsString.split 46 v in
      ret (if 4 <=? List.length parts
           then JsString.field 2 parts ++ str "." ++ JsString.field 3 parts
           else [])
  end.

Definition getSessionIdFromCookie (measurementId : jsstring) : M jsstring :=
  let cookieName :=
    str "_ga_" ++ JsString.replace_first (str "G-") [] measurementId in
  v <- readCookie cookieName ;;
  match v with
  | [] => ret []
  | _ =>
      let p := JsString.split 46 v in
      ret (if 3 <=? List.length p then JsString.field 2 p else [])
  end.

(** ** The availability check (source lines 31-35) *)

Definition is_function (g : gtag_binding) : bool :=
  match g with
  | Callable _ => true
  | _ => false
  end.

(** [a && b && measurementId]: the first falsy operand, or the last one. *)
Definition isGtagAvailable (measurementId : jsstring) : M jsval :=
  fun e =>
    ([], Normal
           (if is_function (window_gtag e) then
              if window_google_tag_manager e then JStr measurementId
              else JBool false
            else JBool false)).

(** ** Promises *)

(** The state of a promise; [resolve] settles a pending one and is a no-op
    on a settled one. *)
Inductive pstate : Type :=
| Pending
| Fulfilled (v : jsval)
| Rejected (e : exn).

Definition resolve (v : jsval) (st : pstate) : pstate :=
  match st with
  | Pending => Fulfilled v
  | _ => st
  end.

(** The promise a live-API wrapper returns: its state when the executor has
    run, and the invocations of the callback still to come, each of which
    runs [resolve(value || '')]. *)
Record live_promise : Type := {
  after_executor : pstate;
  callbacks : list (N * jsval)
}.

(** The state once the first [k] later invocations have run. *)
Definition state_after (p : live_promise) (k : nat) : pstate :=
  fold_left (fun st cb => resolve (or_empty (snd cb)) st)
            (firstn k (callbacks p)) (after_executor p).

(** A promise seen from outside: the instant at which it settles and what it
    settles with; [None] when it stays pending for ever. *)
Definition promise (A : Type) : Type := option (N * completion A).

Definition settlement (created : N) (p : live_promise) : promise jsval :=
  match after_executor p with
  | Fulfilled v => Some (created, Normal v)
  | Rejected e => Some (created, Throw e)
  | Pending =>
      match callbacks p with
      | (gap, v) :: _ => Some (created + gap, Normal (or_empty v))%N
      | [] => None
      end
  end.

(** The delay [setTimeout] uses: its argument as a 32-bit signed integer,
    negative values counting as 0.  An omitted [timeout] is 2000. *)
Definition to_int32 (z : Z) : Z :=
  ((z + 2147483648) mod 4294967296 - 2147483648)%Z.

Definition timer_delay (timeout : option Z) : N :=
  match timeout with
  | Some z => Z.to_N (to_int32 z)
  | None => 2000%N
  end.

(** [new Promise(resolve => setTimeout(() => resolve(''), ms))] *)
Definition timer (created ms : N) : promise jsval :=
  Some (created + ms, Normal (JStr []))%N.

(** [Promise.race([p, q])]: the one that settles first; [p] when both
    settle at the same instant, its reaction being queued first.  That is
    the order when [p] is settled during the call that creates it; when a
    later task settles [p] at the very instant the timer [q] fires, the
    order of the two tasks is the event loop's, and [p] first is one of the
    two. *)
Definition race {A} (p q : promise A) : promise A :=
  match p, q with
  | Some (tp, _), Some (tq, _) => if N.leb tp tq then p else q
  | Some _, None => p
  | None, _ => q
  end.

(** [Promise.all([p, q])]: both values once both are fulfilled, the first
    rejection otherwise. *)
Definition all2 {A B} (p : promise A) (q : promise B) : promise (A * B) :=
  match p, q with
  | Some (tp, Normal a), Some (tq, Normal b) =>
      Some (N.max tp tq, Normal (a, b))
  | Some (tp, Throw x), Some (tq, Throw y) =>
      if N.leb tp tq then Some (tp, Throw x) else Some (tq, Throw y)
  | Some (tp, Throw x), _ => Some (tp, Throw x)
  | _, Some (tq, Throw y) => Some (tq, Throw y)
  | _, _ => None
  end.

(** The globals at every instant. *)
Definition world : Type := N -> env.

(** An [async] function with one [await]: it either returns in its first
    turn, or suspends on a promise and resumes with its outcome. *)
Inductive suspended (A : Type) : Type :=
| Returned (a : A)
| Awaiting (p : N -> promise jsval) (k : completion jsval -> M A).
Arguments Returned {A} a.
Arguments Awaiting {A} p k.

(** The trace of an [async] call and the promise it returns. *)
Definition run_async {A} (body : M (suspended A)) (w : world) (now : N)
  : list effect * promise A :=
  match body (w now) with
  | (t1, Throw x) => (t1, Some (now, Throw x))
  | (t1, Normal (Returned a)) => (t1, Some (now, Normal a))
  | (t1, Normal (Awaiting p k)) =>
      match p now with
      | None => (t1, None)
      | Some (t', r) => let (t2, b) := k r (w t') in (t1 ++ t2, Some (t', b))
      end
  end.

Definition settled {A} (r : list effect * promise A) : promise A := snd r.

(** ** The live-API wrappers (source lines 38-63) *)

(** The call [gtag('get', measurementId, property, callback)]. *)
Definition call_gtag (measurementId property : jsstring) (e : env)
  : list effect * gtag_run :=
  match window_gtag e with
  | Callable f =>
      ([CallGtag measurementId property], f measurementId property)
  | NotCallable =>
      ([], {| sync_values := []; sync_throw := Some TypeError;
              later_values := [] |})
  | Undeclared =>
      ([], {| sync_values := []; sync_throw := Some ReferenceError;
              later_values := [] |})
  end.

(** The executor: the call inside [try], the callback resolving with
    [value || ''], the handler warning and resolving with ['']. *)
Definition gtag_executor (property message measurementId : jsstring)
  : M live_promise :=
  fun e =>
    let (t, run) := call_gtag measurementId property e in
    let st := fold_left (fun st v => resolve (or_empty v) st)
                        (sync_values run) Pending in
    match sync_throw run with
    | Some error =>
        (t ++ [Warn message error],
         Normal {| after_executor := resolve (JStr []) st;
                   callbacks := later_values run |})
    | None =>
        (t, Normal {| after_executor := st; callbacks := later_values run |})
    end.

Definition getClientIdFromGtag : jsstring -> M live_promise :=
  gtag_executor (str "client_id") (str "Error getting client_id from gtag:").

Definition getSessionIdFromGtag : jsstring -> M live_promise :=
  gtag_executor (str "session_id") (str "Error getting session_id from gtag:").

(** ** The resolvers (source lines 66-107) *)

Definition set_timeout (ms : N) : M unit :=
  fun _ => ([SetTimeout ms], Normal tt).

(** [return getClientIdFromCookie();] *)
Definition client_fallback : M jsval :=
  v <- getClientIdFromCookie ;; ret (JStr v).

Definition session_fallback (measurementId : jsstring) : M jsval :=
  v <- getSessionIdFromCookie measurementId ;; ret (JStr v).

(** What follows the [await]: the value of the race when it is truthy, the
    handler's warning when the race rejected, and otherwise the fallback. *)
Definition resume (message : jsstring) (fallback : M jsval)
    (raced : completion jsval) : M jsval :=
  match raced with
  | Normal id => if truthy id then ret id else fallback
  | Throw error => _ <- console_warn message error ;; fallback
  end.

Definition getClientId_body (measurementId : jsstring) (timeout : option Z)
  : M (suspended jsval) :=
  available <- isGtagAvailable measurementId ;;
  if truthy available then
    live <- getClientIdFromGtag measurementId ;;
    _ <- set_timeout (timer_delay timeout) ;;
    ret (Awaiting
           (fun now => race (settlement now live)
                            (timer now (timer_delay timeout)))
           (resume (str "Native gtag client_id failed, falling back to cookie:")
                   client_fallback))
  else
    v <- client_fallback ;; ret (Returned v).

Definition getClientId (measurementId : jsstring) (timeout : option Z)
  : world -> N -> list effect * promise jsval :=
  run_async (getClientId_body measurementId timeout).

Definition getSessionId_body (measurementId : jsstring) (timeout : option Z)
  : M (suspended jsval) :=
  available <- isGtagAvailable measurementId ;;
  if truthy available then
    live <- getSessionIdFromGtag measurementId ;;
    _ <- set_timeout (timer_delay timeout) ;;
    ret (Awaiting
           (fun now => race (settlement now live)
                            (timer now (timer_delay timeout)))
           (resume (str "Native gtag session_id failed, falling back to cookie:")
                   (session_fallback measurementId)))
  else
    v <- session_fallback measurementId ;; ret (Returned v).

Definition getSessionId (measurementId : jsstring) (timeout : option Z)
  : world -> N -> list effect * promise jsval :=
  run_async (getSessionId_body measurementId timeout).

(** ** The combined accessors (source lines 110-136) *)

(** The source annotation: one tag for each identifier, as the strings the
    source writes. *)
Record sources : Type := {
  source_clientId : jsstring;
  source_sessionId : jsstring
}.

Record identifiers : Type := {
  clientId : jsval;
  sessionId : jsval;
  source : sources
}.

(** [id ? (isGtagAvailable(measurementId) ? 'gtag-api' : 'cookie')
        : 'not-found'] *)
Definition annotate (measurementId : jsstring) (id : jsval) : M jsstring :=
  if truthy id then
    available <- isGtagAvailable measurementId ;;
    ret (if truthy available then str "gtag-api" else str "cookie")
  else ret (str "not-found").

(** The object literal built once [Promise.all] has both values. *)
Definition getGA4Identifiers_resume (measurementId : jsstring)
    (ids : jsval * jsval) : M identifiers :=
  c <- annotate measurementId (fst ids) ;;
  s <- annotate measurementId (snd ids) ;;
  ret {| clientId := fst ids; sessionId := snd ids;
         source := {| source_clientId := c; source_sessionId := s |} |}.

Definition getGA4Identifiers (measurementId : jsstring) (timeout : option Z)
    (w : world) (now : N) : promise identifiers :=
  match all2 (settled (getClientId measurementId timeout w now))
             (settled (getSessionId measurementId timeout w now)) with
  | Some (t, Normal ids) =>
      Some (t, result (getGA4Identifiers_resume measurementId ids (w t)))
  | Some (t, Throw x) => Some (t, Throw x)
  | None => None
  end.

(** [x ? 'cookie' : 'not-found'] *)
Definition cookie_or_not_found (v : jsstring) : jsstring :=
  match v with
  | [] => str "not-found"
  | _ :: _ => str "cookie"
  end.

Definition getGA4IdentifiersSync (measurementId : jsstring) : M identifiers :=
  c <- getClientIdFromCookie ;;
  s <- getSessionIdFromCookie measurementId ;;
  c' <- getClientIdFromCookie ;;
  s' <- getSessionIdFromCookie measurementId ;;
  ret {| clientId := JStr c; sessionId := JStr s;
         source := {| source_clientId := cookie_or_not_found c';
                      source_sessionId := cookie_or_not_found s' |} |}.

(** ** What it means for the cookie string to hold an entry *)

Definition all_space (ws : jsstring) : Prop :=
  forallb RegExp.is_space ws = true.

(** [rest] begins with an entry of [name]: white space, the name, white
    space, [=], white space, and then the value [v], a non-empty run without
    [;] that goes on to the next [;] or to the end. *)
Definition entry_here (name rest v : jsstring) : Prop :=
  exists ws1 ws2 ws3 tl,
    rest = ws1 ++ name ++ ws2 ++ 61%N :: ws3 ++ v ++ tl /\
    all_space ws1 /\ all_space ws2 /\ all_space ws3 /\
    v <> [] /\ forallb RegExp.not_semicolon v = true /\
    match tl with [] => True | c :: _ => c = 59%N end.

(** The entry stands at the start of the cookie string or after a [;]. *)
Definition has_entry (name cookie v : jsstring) : Prop :=
  entry_here name cookie v \/
  exists pre rest, cookie = pre ++ 59%N :: rest /\ entry_here name rest v.

Definition cookie_absent (name cookie : jsstring) : Prop :=
  forall v, ~ has_entry name cookie v.

(** Is the live API available, as the conditions of the source read it. *)
Definition live_api_available (measurementId : jsstring) (e : env) : bool :=
  match result (isGtagAvailable measurementId e) with
  | Normal v => truthy v
  | Throw _ => false
  end.

(** The client id held by a decoded [_ga] value: fields 2 and 3 of at least
    four. *)
Definition client_id_of (v : jsstring) : jsstring :=
  let parts := JsString.split 46 v in
  if 4 <=? List.length parts
  then JsString.field 2 parts ++ str "." ++ JsString.field 3 parts
  else [].

(** The session id held by a decoded [_ga_<ID>] value: field 2 of at least
    three. *)
Definition session_id_of (v : jsstring) : jsstring :=
  let p := JsString.split 46 v in
  if 3 <=? List.length p then JsString.field 2 p else [].

(** The name of the session cookie, as the source builds it. *)
Definition session_cookie_name (measurementId : jsstring) : jsstring :=
  str "_ga_" ++ JsString.replace_first (str "G-") [] measurementId.

(** The wording of the specification for that name: a literal [G-] prefix
    is stripped, and nothing is stripped from an id without that prefix. *)
Definition strip_G_prefix (measurementId : jsstring) : jsstring :=
  match JsString.strip_prefix (str "G-") measurementId with
  | Some rest => rest
  | None => measurementId
  end.

(** The session-id accessor with the cookie name of that wording. *)
Definition session_id_with_prefix_stripped (measurementId : jsstring)
  : M jsstring :=
  v <- readCookie (str "_ga_" ++ strip_G_prefix measurementId) ;;
  ret (session_id_of v).

(** An environment with the given cookie string and no live API. *)
Definition cookie_env (cookie : jsstring) : env :=
  {| document_cookie := cookie; window_gtag := Undeclared;
     window_google_tag_manager := false |}.

(** The shape the two resolvers share: the property the wrapper asks for,
    the two warning texts, and the cookie accessor behind the fallback. *)
Definition resolver_body (property wrapper_message message : jsstring)
    (accessor : jsstring -> M jsstring)
    (measurementId : jsstring) (timeout : option Z) : M (suspended jsval) :=
  available <- isGtagAvailable measurementId ;;
  if truthy available then
    live <- gtag_executor property wrapper_message measurementId ;;
    _ <- set_timeout (timer_delay timeout) ;;
    ret (Awaiting
           (fun now => race (settlement now live)
                            (timer now (timer_delay timeout)))
           (resume message
                   (v <- accessor measurementId ;; ret (JStr v))))
  else
    v <- (v <- accessor measurementId ;; ret (JStr v)) ;; ret (Returned v).

(** What a live-API wrapper does when its callback is handed primitive
    values, for every measurement id and every state of the globals; [run]
    is what the call to [gtag] does. *)
Definition never_rejects_and_resolves_once
    (wrapper : jsstring -> M live_promise) (property message : jsstring)
  : Prop :=
  forall (measurementId : jsstring) (e : env),
    let run := snd (call_gtag measurementId property e) in
    exists p,
      (* building the promise never throws *)
      result (wrapper measurementId e) = Normal p /\
      (* it never rejects, at any time *)
      (forall k x, state_after p k <> Rejected x) /\
      (forall now t x, settlement now p <> Some (t, Throw x)) /\
      (* the value of the callback, or the empty string when it is falsy *)
      (forall v rest, sync_values run = v :: rest ->
       state_after p 0 = Fulfilled (if truthy v then v else JStr [])) /\
      (forall gap v rest,
       sync_values run = [] -> sync_throw run = None ->
       later_values run = (gap, v) :: rest ->
       state_after p 0 = Pending /\
       (forall k, 1 <= k ->
        state_after p k = Fulfilled (if truthy v then v else JStr [])) /\
       (forall now,
        settlement now p
        = Some ((now + gap)%N, Normal (if truthy v then v else JStr [])))) /\
      (* a synchronous throw is caught: a warning, and the empty string *)
      (forall error, sync_throw run = Some error ->
       In (Warn message error) (trace (wrapper measurementId e)) /\
       (sync_values run = [] -> state_after p 0 = Fulfilled (JStr []))) /\
      (* no callback and no throw: the promise stays pending *)
      (sync_values run = [] -> sync_throw run = None ->
       later_values run = [] ->
       (forall k, state_after p k = Pending) /\
       (forall now, settlement now p = None)) /\
      (* settled once: a later invocation changes nothing *)
      (forall k k' v, k <= k' ->
       state_after p k = Fulfilled v -> state_after p k' = Fulfilled v).

(** The three-step algorithm of a resolver, for every measurement id,
    timeout, world and starting instant.  [cookie e] is the outcome of the
    cookie accessor in the globals [e], as the resolver hands it on. *)
Definition follows_three_steps
    (resolver : jsstring -> option Z -> world -> N
                -> list effect * promise jsval)
    (body : jsstring -> option Z -> M (suspended jsval))
    (wrapper : jsstring -> M live_promise)
    (accessor : jsstring -> M jsstring) (message : jsstring) : Prop :=
  forall (measurementId : jsstring) (timeout : option Z)
         (w : world) (now : N),
    let cookie (e : env) := cmap JStr (result (accessor measurementId e)) in
    let outcome := resolver measurementId timeout w now in
    outcome = run_async (body measurementId timeout) w now /\
    (* step 1: no live API, so the cookie accessor at once *)
    (live_api_available measurementId (w now) = false ->
     outcome = (trace (accessor measurementId (w now)),
                Some (now, cookie (w now)))) /\
    (* step 2: the race, and what becomes of its value *)
    (live_api_available measurementId (w now) = true ->
     exists live t raced,
       result (wrapper measurementId (w now)) = Normal live /\
       race (settlement now live) (timer now (timer_delay timeout))
       = Some (t, Normal raced) /\
       (truthy raced = true ->
        settled outcome = Some (t, Normal raced) /\
        ~ In ReadCookie (trace outcome)) /\
       (* step 3: an empty value, so the cookie accessor, then *)
       (truthy raced = false ->
        settled outcome = Some (t, cookie (w t)) /\
        In ReadCookie (trace outcome))) /\
    (* the code after the [await], whatever the race hands it: a rejection
       is caught with a warning and falls through to the cookie accessor *)
    (live_api_available measurementId (w now) = true ->
     exists live tr p k,
       result (wrapper measurementId (w now)) = Normal live /\
       body measurementId timeout (w now) = (tr, Normal (Awaiting p k)) /\
       (forall t0, p t0 = race (settlement t0 live)
                               (timer t0 (timer_delay timeout))) /\
       (forall v e, truthy v = true -> k (Normal v) e = ([], Normal v)) /\
       (forall v e, truthy v = false ->
        k (Normal v) e = (trace (accessor measurementId e), cookie e)) /\
       (forall x e,
        k (Throw x) e
        = (Warn message x :: trace (accessor measurementId e), cookie e))).

(** The tag the combined accessor gives a value, from the value and from
    whether the live API is available when the tag is computed. *)
Definition post_hoc_tag (measurementId : jsstring) (e : env) (id : jsval)
  : jsstring :=
  if truthy id then
    if live_api_available measurementId e then str "gtag-api" else str "cookie"
  else str "not-found".

(** The wording of the specification for that tag: the live tag is spelled
    [live-api]. *)
Definition tag_as_specified (available : bool) (id : jsval) : jsstring :=
  if truthy id then
    if available then str "live-api" else str "cookie"
  else str "not-found".

(** A world in which nothing changes. *)
Definition still (e : env) : world := fun _ => e.

(** A live API that is present and never invokes its callback. *)
Definition silent_gtag : gtag_binding :=
  Callable (fun _ _ => {| sync_values := []; sync_throw := None;
                          later_values := [] |}).

(** A live API that answers [value] after [delay], for either property. *)
Definition answering_gtag (delay : N) (value : jsval) : gtag_binding :=
  Callable (fun _ _ => {| sync_values := []; sync_throw := None;
                          later_values := [(delay, value)] |}).

Definition page (cookie : jsstring) (g : gtag_binding) : env :=
  {| document_cookie := cookie; window_gtag := g;
     window_google_tag_manager := true |}.

(** ** The cookie string of a cookie jar *)

(** A character a cookie name is made of: anything but [;], [=] and white
    space. *)
Definition is_token_char (c : N) : bool :=
  negb (N.eqb c 59) && negb (N.eqb c 61) && negb (RegExp.is_space c).

Definition cookie_name_ok (k : jsstring) : Prop :=
  k <> [] /\ forallb is_token_char k = true.

(** A cookie value: no [;] in it and no white space in front. *)
Definition cookie_value_ok (v : jsstring) : Prop :=
  forallb RegExp.not_semicolon v = true /\
  match v with [] => True | c :: _ => RegExp.is_space c = false end.

Definition cookie_pair_ok (kv : jsstring * jsstring) : Prop :=
  cookie_name_ok (fst kv) /\ cookie_value_ok (snd kv).

(** What [document.cookie] reads for a jar of name/value pairs:
    [name=value] entries separated by [; ]. *)
Fixpoint cookie_string (jar : list (jsstring * jsstring)) : jsstring :=
  match jar with
  | [] => []
  | (k, v) :: rest =>
      k ++ 61%N :: v ++
      match rest with
      | [] => []
      | _ :: _ => 59%N :: 32%N :: cookie_string rest
      end
  end.

(** The first pair of the jar with the given name and a non-empty value. *)
Fixpoint jar_lookup (name : jsstring) (jar : list (jsstring * jsstring))
  : option jsstring :=
  match jar with
  | [] => None
  | (k, v) :: rest =>
      if list_eq_dec N.eq_dec k name then
        match v with
        | [] => jar_lookup name rest
        | _ :: _ => Some v
        end
      else jar_lookup name rest
  end.

(** ** What a resolver makes of one run of the live API *)

(** The promise the executor of a wrapper leaves behind for a run. *)
Definition promise_of_run (run : gtag_run) : live_promise :=
  let st := fold_left (fun st v => resolve (or_empty v) st)
                      (sync_values run) Pending in
  {| after_executor :=
       match sync_throw run with
       | Some _ => resolve (JStr []) st
       | None => st
       end;
     callbacks := later_values run |}.

(** The warning of the wrapper's handler, when the run throws. *)
Definition warnings_of_run (message : jsstring) (run : gtag_run)
  : list effect :=
  match sync_throw run with
  | Some error => [Warn message error]
  | None => []
  end.

(** A resolver whose live API throws before it calls back: the wrapper
    warns, and the resolver reads the cookie in the same turn. *)
Definition falls_back_when_gtag_throws
    (resolver : jsstring -> option Z -> world -> N
                -> list effect * promise jsval)
    (property wrapper_message : jsstring)
    (accessor : jsstring -> M jsstring) : Prop :=
  forall (measurementId : jsstring) (timeout : option Z) (w : world) (now : N)
         (f : jsstring -> jsstring -> gtag_run) (error : exn),
    window_gtag (w now) = Callable f ->
    window_google_tag_manager (w now) = true ->
    measurementId <> [] ->
    sync_values (f measurementId property) = [] ->
    sync_throw (f measurementId property) = Some error ->
    resolver measurementId timeout w now =
    ([CallGtag measurementId property; Warn wrapper_message error;
      SetTimeout (timer_delay timeout); ReadCookie],
     Some (now, cmap JStr (result (accessor measurementId (w now))))).

(** A resolver whose live API calls back: during the call, by a later task
    strictly before the timer fires, or strictly after it.  Nothing is said
    of a callback task due at the very instant of the timer: the order of
    the two tasks is then left to the event loop. *)
Definition answers_in_time_or_falls_back
    (resolver : jsstring -> option Z -> world -> N
                -> list effect * promise jsval)
    (property : jsstring) (accessor : jsstring -> M jsstring) : Prop :=
  forall (measurementId : jsstring) (timeout : option Z) (w : world) (now : N)
         (f : jsstring -> jsstring -> gtag_run),
    window_gtag (w now) = Callable f ->
    window_google_tag_manager (w now) = true ->
    measurementId <> [] ->
    let run := f measurementId property in
    let delay := timer_delay timeout in
    let cookie (t : N) := cmap JStr (result (accessor measurementId (w t))) in
    let out := settled (resolver measurementId timeout w now) in
    (* the callback is invoked during the call *)
    (forall v rest, sync_values run = v :: rest ->
     (truthy v = true -> out = Some (now, Normal v)) /\
     (truthy v = false -> out = Some (now, cookie now))) /\
    (* the callback is first invoked by a later task *)
    (forall gap v rest,
     sync_values run = [] -> sync_throw run = None ->
     later_values run = (gap, v) :: rest ->
     ((gap < delay)%N -> truthy v = true ->
      out = Some ((now + gap)%N, Normal v)) /\
     ((gap < delay)%N -> truthy v = false ->
      out = Some ((now + gap)%N, cookie (now + gap)%N)) /\
     ((delay < gap)%N ->
      out = Some ((now + delay)%N, cookie (now + delay)%N))).

(** ** The live API when the callback is handed any value *)

(** The values of [jsval] are primitives.  The callback of [gtag] may also
    be handed an object, and [resolve] treats an object with a [then]
    method, a thenable, in its own way: it adopts the thenable's state, so
    that a promise that is only ever resolved can still be rejected.  This
    module follows the wrappers, the resolvers and the combined accessor
    (source lines 31-124) with such values. *)
Module Any.

(** A value that is not a thenable: a primitive, or an object without a
    [then] method. *)
Inductive value : Type :=
| Prim (v : jsval)
| Obj (label : N).

(** ToBoolean: every object is truthy. *)
Definition value_truthy (v : value) : bool :=
  match v with
  | Prim p => truthy p
  | Obj _ => true
  end.

(** What the callback is handed: a value that is not a thenable, or a
    thenable.  A thenable is given by what becomes of a promise resolved
    with it: [None] when that promise stays pending, otherwise the time it
    takes to settle and the value it is fulfilled with or the exception it
    is rejected with. *)
Inductive callback_value : Type :=
| Plain (v : value)
| Thenable (fate : promise value).

(** [value || '']: a thenable is an object, hence truthy. *)
Definition or_empty (c : callback_value) : callback_value :=
  match c with
  | Plain v => if value_truthy v then c else Plain (Prim (JStr []))
  | Thenable _ => c
  end.

(** What one call [gtag('get', id, property, callback)] does with its
    callback: the values it passes to it before it returns, the exception
    it then throws if it throws, and the values later tasks pass to it,
    each with the time elapsed since the previous invocation. *)
Record gtag_run : Type := {
  sync_calls : list callback_value;
  throws : option exn;
  later_calls : list (N * callback_value)
}.

Inductive gtag_binding : Type :=
| Undeclared
| NotCallable
| Callable (f : jsstring -> jsstring -> gtag_run).

Record env : Type := {
  document_cookie : jsstring;
  window_gtag : gtag_binding;
  window_google_tag_manager : bool
}.

Definition world : Type := N -> env.

(** [typeof gtag === 'function' && typeof window.google_tag_manager !==
    'undefined' && measurementId] *)
Definition isGtagAvailable (measurementId : jsstring) (e : env) : jsval :=
  match window_gtag e with
  | Callable _ =>
      if window_google_tag_manager e then JStr measurementId else JBool false
  | _ => JBool false
  end.

(** The state of a promise: pending; bound by a call of [resolve] to the
    argument of that call; or rejected by a call of [reject] or by an
    executor that throws.  [resolve] binds a pending promise and is a no-op
    on any other. *)
Inductive pstate : Type :=
| Pending
| ResolvedWith (instant : N) (c : callback_value)
| Rejected (instant : N) (e : exn).

Definition resolve (t : N) (c : callback_value) (st : pstate) : pstate :=
  match st with
  | Pending => ResolvedWith t c
  | _ => st
  end.

(** A promise resolved with a thenable at [t] settles as the thenable
    does. *)
Definition adopt (t : N) (fate : promise value) : promise value :=
  match fate with
  | Some (d, r) => Some ((t + d)%N, r)
  | None => None
  end.

(** When such a promise settles, and with what. *)
Definition settlement (st : pstate) : promise value :=
  match st with
  | Pending => None
  | ResolvedWith t (Plain v) => Some (t, Normal v)
  | ResolvedWith t (Thenable fate) => adopt t fate
  | Rejected t e => Some (t, Throw e)
  end.

(** The later invocations of the callback, with their instants. *)
Fixpoint later_instants (t : N) (l : list (N * callback_value))
  : list (N * callback_value) :=
  match l with
  | [] => []
  | (gap, c) :: rest => ((t + gap)%N, c) :: later_instants (t + gap) rest
  end.

(** The calls of [resolve] on the promise of a wrapper created at [now],
    in order, each with its instant and its argument: one for each
    invocation of the callback during the call, one by the [catch] handler
    if the call throws, and one for each later invocation of the
    callback. *)
Definition resolve_calls (now : N) (run : gtag_run)
  : list (N * callback_value) :=
  map (fun c => (now, or_empty c)) (sync_calls run)
  ++ match throws run with
     | Some _ => [(now, Plain (Prim (JStr [])))]
     | None => []
     end
  ++ map (fun tc => (fst tc, or_empty (snd tc)))
         (later_instants now (later_calls run)).

(** The promise a wrapper returns, as the calls of [resolve] on it. *)
Definition live_promise : Type := list (N * callback_value).

Definition state_after (p : live_promise) (k : nat) : pstate :=
  fold_left (fun st tc => resolve (fst tc) (snd tc) st) (firstn k p) Pending.

Definition outcome (p : live_promise) : promise value :=
  settlement (state_after p (List.length p)).

(** The call [gtag('get', measurementId, property, callback)]. *)
Definition call_gtag (measurementId property : jsstring) (e : env)
  : list effect * gtag_run :=
  match window_gtag e with
  | Callable f =>
      ([CallGtag measurementId property], f measurementId property)
  | NotCallable =>
      ([], {| sync_calls := []; throws := Some TypeError; later_calls := [] |})
  | Undeclared =>
      ([], {| sync_calls := []; throws := Some ReferenceError;
              later_calls := [] |})
  end.

(** The executor (source lines 38-63): the call inside [try], the callback
    resolving with [value || ''], the handler warning and resolving with
    ['']. *)
Definition gtag_executor (property message measurementId : jsstring)
    (e : env) (now : N) : list effect * live_promise :=
  let (t, run) := call_gtag measurementId property e in
  (t ++ match throws run with
        | Some error => [Warn message error]
        | None => []
        end,
   resolve_calls now run).

Definition getClientIdFromGtag
  : jsstring -> env -> N -> list effect * live_promise :=
  gtag_executor (str "client_id") (str "Error getting client_id from gtag:").

Definition getSessionIdFromGtag
  : jsstring -> env -> N -> list effect * live_promise :=
  gtag_executor (str "session_id") (str "Error getting session_id from gtag:").

(** The cookie accessor behind a resolver, which reads [document.cookie]
    and nothing else. *)
Definition fallback (accessor : M jsstring) (e : env)
  : list effect * completion value :=
  let r := accessor (cookie_env (document_cookie e)) in
  (trace r, cmap (fun s => Prim (JStr s)) (result r)).

(** What follows the [await] (source lines 73-84, 95-106): the value of
    the race when it is truthy, the handler's warning when the race
    rejected, and otherwise the fallback. *)
Definition resume (message : jsstring)
    (fb : list effect * completion value) (raced : completion value)
  : list effect * completion value :=
  match raced with
  | Normal id => if value_truthy id then ([], Normal id) else fb
  | Throw error => (Warn message error :: fst fb, snd fb)
  end.

(** A resolver (source lines 66-107): the property its wrapper asks for,
    the two warning texts, and its cookie accessor. *)
Definition resolver (property wrapper_message message : jsstring)
    (accessor : jsstring -> M jsstring)
    (measurementId : jsstring) (timeout : option Z) (w : world) (now : N)
  : list effect * promise value :=
  if truthy (isGtagAvailable measurementId (w now)) then
    let (t1, live) :=
      gtag_executor property wrapper_message measurementId (w now) now in
    let delay := timer_delay timeout in
    match race (outcome live)
               (Some ((now + delay)%N, Normal (Prim (JStr [])))) with
    | Some (t, raced) =>
        let (t2, b) :=
          resume message (fallback (accessor measurementId) (w t)) raced in
        (t1 ++ SetTimeout delay :: t2, Some (t, b))
    | None => (t1 ++ [SetTimeout delay], None)
    end
  else
    let (t2, b) := fallback (accessor measurementId) (w now) in
    (t2, Some (now, b)).

Definition getClientId
  : jsstring -> option Z -> world -> N -> list effect * promise value :=
  resolver (str "client_id") (str "Error getting client_id from gtag:")
           (str "Native gtag client_id failed, falling back to cookie:")
           (fun _ => getClientIdFromCookie).

Definition getSessionId
  : jsstring -> option Z -> world -> N -> list effect * promise value :=
  resolver (str "session_id") (str "Error getting session_id from gtag:")
           (str "Native gtag session_id failed, falling back to cookie:")
           getSessionIdFromCookie.

Record identifiers : Type := {
  clientId : value;
  sessionId : value;
  source : sources
}.

Definition annotate (measurementId : jsstring) (id : value) (e : env)
  : jsstring :=
  if value_truthy id then
    if truthy (isGtagAvailable measurementId e) then str "gtag-api"
    else str "cookie"
  else str "not-found".

Definition getGA4Identifiers (measurementId : jsstring) (timeout : option Z)
    (w : world) (now : N) : promise identifiers :=
  match all2 (settled (getClientId measurementId timeout w now))
             (settled (getSessionId measurementId timeout w now)) with
  | Some (t, Normal ids) =>
      Some (t, Normal
                 {| clientId := fst ids; sessionId := snd ids;
                    source :=
                      {| source_clientId :=
                           annotate measurementId (fst ids) (w t);
                         source_sessionId :=
                           annotate measurementId (snd ids) (w t) |} |})
  | Some (t, Throw x) => Some (t, Throw x)
  | None => None
  end.

Definition is_plain (c : callback_value) : Prop :=
  match c with
  | Plain _ => True
  | Thenable _ => False
  end.

End Any.

(** The contract of a live-API wrapper, for every measurement id, every
    state of the globals and every instant; [f] is the function [gtag] is
    bound to and [run] what its call does. *)
Definition resolves_once_and_rejects_only_as_a_thenable
    (wrapper : jsstring -> Any.env -> N -> list effect * Any.live_promise)
    (property message : jsstring) : Prop :=
  forall (measurementId : jsstring) (e : Any.env) (now : N),
    let tr := fst (wrapper measurementId e now) in
    let p := snd (wrapper measurementId e now) in
    let value_or_empty (v : Any.value) :=
      if Any.value_truthy v then v else Any.Prim (JStr []) in
    (* [gtag] is no function: the call throws inside [try]; a warning, and
       the empty string *)
    (Any.window_gtag e = Any.Undeclared ->
     tr = [Warn message ReferenceError] /\
     Any.outcome p = Some (now, Normal (Any.Prim (JStr [])))) /\
    (Any.window_gtag e = Any.NotCallable ->
     tr = [Warn message TypeError] /\
     Any.outcome p = Some (now, Normal (Any.Prim (JStr [])))) /\
    (forall f, Any.window_gtag e = Any.Callable f ->
     let run := f measurementId property in
     (* one call, for the property of the wrapper; a throw is caught with a
        warning *)
     tr = CallGtag measurementId property
          :: match Any.throws run with
             | Some error => [Warn message error]
             | None => []
             end /\
     (* the callback is invoked during the call: its first value, or the
        empty string when that is falsy; a thenable is adopted *)
     (forall v rest, Any.sync_calls run = Any.Plain v :: rest ->
      Any.outcome p = Some (now, Normal (value_or_empty v))) /\
     (forall fate rest, Any.sync_calls run = Any.Thenable fate :: rest ->
      Any.outcome p = Any.adopt now fate) /\
     (* the call throws before it invokes the callback: the empty string *)
     (forall error, Any.sync_calls run = [] ->
      Any.throws run = Some error ->
      Any.outcome p = Some (now, Normal (Any.Prim (JStr [])))) /\
     (* the callback is first invoked by a later task *)
     (forall gap v rest, Any.sync_calls run = [] -> Any.throws run = None ->
      Any.later_calls run = (gap, Any.Plain v) :: rest ->
      Any.outcome p = Some ((now + gap)%N, Normal (value_or_empty v))) /\
     (forall gap fate rest, Any.sync_calls run = [] ->
      Any.throws run = None ->
      Any.later_calls run = (gap, Any.Thenable fate) :: rest ->
      Any.outcome p = Any.adopt (now + gap) fate) /\
     (* no callback and no throw: the promise stays pending *)
     (Any.sync_calls run = [] -> Any.throws run = None ->
      Any.later_calls run = [] -> Any.outcome p = None) /\
     (* no thenable, no rejection *)
     (Forall Any.is_plain (Any.sync_calls run) ->
      Forall (fun gc => Any.is_plain (snd gc)) (Any.later_calls run) ->
      forall t x, Any.outcome p <> Some (t, Throw x))) /\
    (* the promise is never rejected directly *)
    (forall k t x, Any.state_after p k <> Any.Rejected t x) /\
    (* resolved once: a call of [resolve] after the first changes nothing *)
    (forall k, 1 <= k -> Any.state_after p k = Any.state_after p 1) /\
    (Any.outcome p = Any.settlement (Any.state_after p 1)) /\
    (* rejected only by adopting a thenable that rejects *)
    (forall t x, Any.outcome p = Some (t, Throw x) ->
     exists t0 d,
       Any.state_after p 1
       = Any.ResolvedWith t0 (Any.Thenable (Some (d, Throw x))) /\
       t = (t0 + d)%N).

(** A [gtag] that hands its callback, during the call, a thenable that
    rejects at once. *)
Definition rejecting_gtag (reason : exn) : Any.gtag_binding :=
  Any.Callable
    (fun _ _ => {| Any.sync_calls := [Any.Thenable (Some (0%N, Throw reason))];
                   Any.throws := None; Any.later_calls := [] |}).

Definition any_page (cookie : jsstring) (g : Any.gtag_binding) : Any.env :=
  {| Any.document_cookie := cookie; Any.window_gtag := g;
     Any.window_google_tag_manager := true |}.

(** The primitive values among all values: a run, a binding, the globals
    and a world of the definitions for primitive values, as ones of the
    module above. *)
Definition any_value (v : jsval) : Any.callback_value :=
  Any.Plain (Any.Prim v).

Definition any_run (run : gtag_run) : Any.gtag_run :=
  {| Any.sync_calls := map any_value (sync_values run);
     Any.throws := sync_throw run;
     Any.later_calls :=
       map (fun gv => (fst gv, any_value (snd gv))) (later_values run) |}.

Definition any_binding (g : gtag_binding) : Any.gtag_binding :=
  match g with
  | Undeclared => Any.Undeclared
  | NotCallable => Any.NotCallable
  | Callable f => Any.Callable (fun m p => any_run (f m p))
  end.

Definition any_env (e : env) : Any.env :=
  {| Any.document_cookie := document_cookie e;
     Any.window_gtag := any_binding (window_gtag e);
     Any.window_google_tag_manager := window_google_tag_manager e |}.

Definition any_world (w : world) : Any.world := fun t => any_env (w t).

Definition any_promise (p : promise jsval) : promise Any.value :=
  match p with
  | Some (t, r) => Some (t, cmap Any.Prim r)
  | None => None
  end.

(** A resolver of the module [Any], run on primitive values, does what the
    resolver for primitive values does. *)
Definition agrees_on_primitive_values
    (general : jsstring -> option Z -> Any.world -> N
               -> list effect * promise Any.value)
    (resolver : jsstring -> option Z -> world -> N
                -> list effect * promise jsval) : Prop :=
  forall (measurementId : jsstring) (timeout : option Z) (w : world) (now : N),
    general measurementId timeout (any_world w) now
    = (trace (resolver measurementId timeout w now),
       any_promise (settled (resolver measurementId timeout w now))).

(** The effects of a resolver, and when its own [catch] handler runs. *)
Definition warns_only_for_a_rejecting_thenable
    (resolver : jsstring -> option Z -> Any.world -> N
                -> list effect * promise Any.value)
    (property wrapper_message message : jsstring)
    (accessor : jsstring -> M jsstring) : Prop :=
  forall (measurementId : jsstring) (timeout : option Z)
         (w : Any.world) (now : N),
    let out := resolver measurementId timeout w now in
    let delay := timer_delay timeout in
    let cookie (t : N) :=
      cmap (fun s => Any.Prim (JStr s))
           (result (accessor measurementId
                      (cookie_env (Any.document_cookie (w t))))) in
    (* the cookie alone; or one call of the live API, at most one warning of
       the wrapper, one timer, and then nothing, the cookie, or the warning
       of the resolver and the cookie *)
    (trace out = [ReadCookie] \/
     exists warn rest,
       trace out = CallGtag measurementId property
                   :: warn ++ SetTimeout delay :: rest /\
       (warn = [] \/ exists error, warn = [Warn wrapper_message error]) /\
       (rest = [] \/ rest = [ReadCookie] \/
        exists x, rest = [Warn message x; ReadCookie])) /\
    (* the resolver warns only when the promise of its wrapper was rejected
       no later than the timer, by a thenable *)
    (forall x, In (Warn message x) (trace out) ->
     exists f t0 d,
       Any.window_gtag (w now) = Any.Callable f /\
       Any.state_after (Any.resolve_calls now (f measurementId property)) 1
       = Any.ResolvedWith t0 (Any.Thenable (Some (d, Throw x))) /\
       (t0 + d <= now + delay)%N /\
       settled out = Some ((t0 + d)%N, cookie (t0 + d)%N)) /\
    (* and it does warn when that happens before the timer fires *)
    (forall f t0 d x,
     Any.window_gtag (w now) = Any.Callable f ->
     Any.window_google_tag_manager (w now) = true ->
     measurementId <> [] ->
     Any.state_after (Any.resolve_calls now (f measurementId property)) 1
     = Any.ResolvedWith t0 (Any.Thenable (Some (d, Throw x))) ->
     (t0 + d < now + delay)%N ->
     out = (CallGtag measurementId property
            :: match Any.throws (f measurementId property) with
               | Some error => [Warn wrapper_message error]
               | None => []
               end
            ++ [SetTimeout delay; Warn message x; ReadCookie],
            Some ((t0 + d)%N, cookie (t0 + d)%N))) /\
    (* no thenable, no warning of the resolver *)
    (forall f,
     Any.window_gtag (w now) = Any.Callable f ->
     Forall Any.is_plain (Any.sync_calls (f measurementId property)) ->
     Forall (fun gc => Any.is_plain (snd gc))
            (Any.later_calls (f measurementId property)) ->
     forall x, ~ In (Warn message x) (trace out)).

(** * Properties *)

Unset Implicit Arguments.

(** ** Strings *)

Module JsStringFacts.
Import JsString.

Lemma strip_prefix_app (p rest : jsstring) :
  strip_prefix p (p ++ rest) = Some rest.
Proof.
  induction p as [|a p IH]; simpl; [reflexivity|].
  now rewrite N.eqb_refl.
Qed.

Lemma strip_prefix_Some (p s rest : jsstring) :
  strip_prefix p s = Some rest -> s = p ++ rest.
Proof.
  revert s; induction p as [|a p IH]; intros s H; simpl in *.
  - now inversion H.
  - destruct s as [|b s]; [discriminate|].
    destruct (N.eqb a b) eqn:E; [|discriminate].
    apply N.eqb_eq in E; subst b.
    now rewrite (IH _ H).
Qed.

Lemma split_nonempty (sep : N) (s : jsstring) : split sep s <> [].
Proof.
  destruct s as [|c s]; simpl; [discriminate|].
  destruct (N.eqb c sep); [discriminate|].
  destruct (split sep s); discriminate.
Qed.

(** Splitting loses nothing: joining the fields gives the string back. *)
Lemma join_split (sep : N) (s : jsstring) : join sep (split sep s) = s.
Proof.
  induction s as [|c s IH]; simpl; [reflexivity|].
  destruct (N.eqb c sep) eqn:E.
  - apply N.eqb_eq in E; subst c.
    pose proof (split_nonempty sep s) as NE.
    destruct (split sep s) as [|f fs]; [congruence|].
    simpl in *. now rewrite IH.
  - pose proof (split_nonempty sep s) as NE.
    destruct (split sep s) as [|f fs]; [congruence|].
    destruct fs as [|g fs]; simpl in *; now rewrite <- IH.
Qed.

(** No field holds the separator. *)
Lemma split_fields (sep : N) (s : jsstring) :
  Forall (fun f => ~ In sep f) (split sep s).
Proof.
  induction s as [|c s IH]; simpl.
  - constructor; [intros []|constructor].
  - destruct (N.eqb c sep) eqn:E.
    + constructor; [intros []|exact IH].
    + apply N.eqb_neq in E.
      destruct (split sep s) as [|f fs]; simpl.
      * constructor; [|constructor]. intros [H|[]]. congruence.
      * inversion IH as [|? ? Hf Hfs]; subst.
        constructor; [|exact Hfs].
        intros [H|H]; [congruence|now apply Hf].
Qed.

(** The fields are the only way to write [s] as separator-free pieces
    joined by the separator. *)
Lemma split_join (sep : N) (fields : list jsstring) :
  fields <> [] ->
  Forall (fun f => ~ In sep f) fields ->
  split sep (join sep fields) = fields.
Proof.
  induction fields as [|f fs IH]; intros NE HF; [congruence|].
  inversion HF as [|? ? Hf Hfs]; subst.
  destruct fs as [|g fs].
  - simpl. clear IH NE HF Hfs.
    induction f as [|c f IHf]; simpl; [reflexivity|].
    destruct (N.eqb c sep) eqn:E.
    + apply N.eqb_eq in E; subst c. exfalso; apply Hf; now left.
    + rewrite IHf; [reflexivity|]. intros H; apply Hf; now right.
  - assert (IH' : split sep (join sep (g :: fs)) = g :: fs)
      by (apply IH; [discriminate|exact Hfs]).
    change (join sep (f :: g :: fs)) with (f ++ sep :: join sep (g :: fs)).
    remember (join sep (g :: fs)) as tl eqn:Etl.
    clear IH NE HF Hfs Etl.
    induction f as [|c f IHf]; simpl.
    + now rewrite N.eqb_refl, IH'.
    + destruct (N.eqb c sep) eqn:E.
      * apply N.eqb_eq in E; subst c. exfalso; apply Hf; now left.
      * rewrite IHf; [reflexivity|]. intros H; apply Hf; now right.
Qed.

(** A string that starts with the pattern loses exactly that prefix. *)
Lemma replace_first_prefix (pat rest : jsstring) :
  replace_first pat [] (pat ++ rest) = rest.
Proof.
  destruct (pat ++ rest) eqn:E; simpl;
    rewrite <- E, strip_prefix_app; reflexivity.
Qed.

(** The occurrence that goes is the one [indexOf] finds: the leftmost. *)
Lemma replace_first_index_of (pat s : jsstring) :
  replace_first pat [] s =
  match index_of pat s with
  | Some i => firstn i s ++ skipn (i + List.length pat) s
  | None => s
  end.
Proof.
  induction s as [|c s IH]; simpl.
  - destruct (strip_prefix pat []) eqn:E; [|reflexivity].
    apply strip_prefix_Some in E.
    destruct pat; [|discriminate]. now inversion E.
  - destruct (strip_prefix pat (c :: s)) eqn:E.
    + apply strip_prefix_Some in E. rewrite E.
      simpl. now rewrite skipn_app, skipn_all, Nat.sub_diag.
    + rewrite IH. destruct (index_of pat s); reflexivity.
Qed.

Lemma index_of_None (pat s : jsstring) :
  index_of pat s = None -> forall a b, s <> a ++ pat ++ b.
Proof.
  induction s as [|c s IH]; simpl; intros H a b E.
  - destruct (strip_prefix pat []) eqn:P; [discriminate|].
    destruct a; [|discriminate]. simpl in E.
    rewrite E, strip_prefix_app in P. discriminate.
  - destruct (strip_prefix pat (c :: s)) eqn:P; [discriminate|].
    destruct (index_of pat s) eqn:I; [discriminate|].
    destruct a as [|x a]; simpl in E.
    + rewrite E, strip_prefix_app in P. discriminate.
    + inversion E; subst. now apply (IH eq_refl a b).
Qed.

End JsStringFacts.

(** ** The pattern of [readCookie] *)

Module RegExpFacts.
Import RegExp.

(** X1: escaping works.  Whatever the cookie name, the text that the
    [replace] of [readCookie] puts into the pattern reads, as pattern source,
    as a run of literal atoms that spell the name itself, character for
    character: no name can bring pattern syntax of its own. *)
Lemma literal_atoms_escape (name : jsstring) :
  literal_atoms (escape name) = Some name.
Proof.
  induction name as [|c name IH]; [reflexivity|].
  unfold escape in *; simpl.
  destruct (is_meta c) eqn:Em; simpl.
  - assert (Hs : is_syntax c || N.eqb c 47 || N.eqb c 45 = true).
    { unfold is_meta, is_syntax in *; simpl in *.
      repeat match goal with
             | H : (N.eqb c ?k || _) = true |- _ =>
                 apply orb_true_iff in H; destruct H as [H|H];
                 [apply N.eqb_eq in H; subst c; reflexivity|]
             end.
      discriminate. }
    rewrite Hs, IH. reflexivity.
  - assert (Hn : N.eqb c 92 = false /\ is_syntax c = false).
    { unfold is_meta, is_syntax in *; simpl in *.
      repeat match goal with
             | H : (_ || _) = false |- _ =>
                 apply orb_false_iff in H; destruct H
             end.
      split; [assumption|].
      repeat (apply orb_false_iff; split); try assumption; reflexivity. }
    destruct Hn as [H1 H2]. rewrite H1, H2, IH. reflexivity.
Qed.

Section Star.
Variable R : Type.
Variable p : N -> bool.
Variable k : cont R.

Lemma star_sound (s : jsstring) (r : R) :
  star p k s = Some r ->
  exists ws rest, s = ws ++ rest /\ forallb p ws = true /\ k rest = Some r.
Proof.
  induction s as [|c s IH]; simpl; intros H.
  - now exists [], [].
  - destruct (p c) eqn:Ep.
    + destruct (star p k s) as [r0|] eqn:Es.
      * inversion H; subst r0.
        destruct (IH eq_refl) as (ws & rest & -> & Hws & Hk).
        exists (c :: ws), rest. simpl. now rewrite Ep.
      * now exists [], (c :: s).
    + now exists [], (c :: s).
Qed.

Lemma star_skip (s : jsstring) :
  k s <> None -> star p k s <> None.
Proof.
  destruct s as [|c s]; simpl; [easy|].
  destruct (p c); [|easy].
  destruct (star p k s); [discriminate|easy].
Qed.

Lemma star_complete (ws rest : jsstring) :
  forallb p ws = true -> k rest <> None -> star p k (ws ++ rest) <> None.
Proof.
  induction ws as [|c ws IH]; simpl; intros Hws Hk.
  - now apply star_skip.
  - apply andb_true_iff in Hws as [Hc Hws]. rewrite Hc.
    specialize (IH Hws Hk).
    destruct (star p k (ws ++ rest)); [discriminate|congruence].
Qed.
End Star.

Lemma lit_sound R (l : jsstring) (k : cont R) s r :
  lit l k s = Some r -> exists rest, s = l ++ rest /\ k rest = Some r.
Proof.
  unfold lit. destruct (JsString.strip_prefix l s) eqn:E; [|discriminate].
  intros H. exists j. split; [|exact H].
  now apply JsStringFacts.strip_prefix_Some.
Qed.

Lemma lit_complete R (l : jsstring) (k : cont R) rest :
  lit l k (l ++ rest) = k rest.
Proof. unfold lit. now rewrite JsStringFacts.strip_prefix_app. Qed.

Lemma span_spec (p : N -> bool) (s : jsstring) :
  forallb p (span p s) = true /\
  exists tl, s = span p s ++ tl /\
             match tl with [] => True | c :: _ => p c = false end.
Proof.
  induction s as [|c s (IH1 & tl & IH2 & IH3)]; simpl.
  - split; [reflexivity|]. now exists [].
  - destruct (p c) eqn:Ep; simpl.
    + rewrite Ep, IH1. split; [reflexivity|].
      exists tl. split; [now rewrite <- IH2|exact IH3].
    + split; [reflexivity|]. exists (c :: s). now split.
Qed.

Lemma capture_plus_sound (p : N -> bool) (s v : jsstring) :
  capture_plus p s = Some v ->
  v <> [] /\ forallb p v = true /\
  exists tl, s = v ++ tl /\
             match tl with [] => True | c :: _ => p c = false end.
Proof.
  unfold capture_plus. intros H.
  destruct (span_spec p s) as (H1 & tl & H2 & H3).
  destruct (span p s) as [|c v'] eqn:E; [discriminate|].
  inversion H; subst v.
  split; [discriminate|]. split; [exact H1|]. now exists tl.
Qed.

Lemma capture_plus_complete (p : N -> bool) (v tl : jsstring) :
  v <> [] -> forallb p v = true -> capture_plus p (v ++ tl) <> None.
Proof.
  intros NE Hv. destruct v as [|c v]; [congruence|].
  simpl in Hv. apply andb_true_iff in Hv as [Hc _].
  unfold capture_plus. simpl. now rewrite Hc.
Qed.

(** What the pattern matches after its anchor is an entry, and the captured
    text is its value. *)
Lemma after_anchor_sound (name s v : jsstring) :
  after_anchor name s = Some v -> entry_here name s v.
Proof.
  unfold after_anchor. intros H.
  apply star_sound in H as (ws1 & r1 & -> & W1 & H).
  apply lit_sound in H as (r2 & -> & H).
  apply star_sound in H as (ws2 & r3 & -> & W2 & H).
  apply lit_sound in H as (r4 & -> & H).
  apply star_sound in H as (ws3 & r5 & -> & W3 & H).
  apply capture_plus_sound in H as (NE & Hv & tl & -> & Htl).
  exists ws1, ws2, ws3, tl. simpl. repeat split; try assumption.
  destruct tl as [|c tl]; [exact I|].
  unfold not_semicolon in Htl.
  apply negb_false_iff, N.eqb_eq in Htl. exact Htl.
Qed.

Lemma after_anchor_complete (name s v : jsstring) :
  entry_here name s v -> after_anchor name s <> None.
Proof.
  intros (ws1 & ws2 & ws3 & tl & -> & W1 & W2 & W3 & NE & Hv & _).
  unfold after_anchor.
  apply star_complete; [exact W1|]. rewrite lit_complete.
  apply star_complete; [exact W2|].
  change (61%N :: ws3 ++ v ++ tl) with ([61%N] ++ ws3 ++ v ++ tl).
  rewrite lit_complete.
  apply star_complete; [exact W3|].
  now apply capture_plus_complete.
Qed.

Lemma exec_sound (name s v : jsstring) (bol : bool) :
  exec bol name s = Some v ->
  (bol = true /\ entry_here name s v) \/
  exists pre rest, s = pre ++ 59%N :: rest /\ entry_here name rest v.
Proof.
  revert bol. induction s as [|c s IH]; intros bol; simpl.
  - unfold match_at, bol_or_semicolon.
    destruct bol; [|discriminate].
    destruct (after_anchor name []) eqn:E; [|discriminate].
    intros H; inversion H; subst. left. split; [reflexivity|].
    now apply after_anchor_sound.
  - unfold match_at, bol_or_semicolon.
    destruct (if bol then after_anchor name (c :: s) else None) eqn:E1.
    + intros H; inversion H; subst.
      destruct bol; [|discriminate].
      left. split; [reflexivity|]. now apply after_anchor_sound.
    + destruct (N.eqb c 59) eqn:Ec.
      * apply N.eqb_eq in Ec; subst c.
        destruct (after_anchor name s) eqn:E2.
        -- intros H; inversion H; subst. right. exists [], s.
           split; [reflexivity|]. now apply after_anchor_sound.
        -- intros H. apply IH in H as [[? ?]|(pre & rest & -> & H)];
             [discriminate|].
           right. now exists (59%N :: pre), rest.
      * intros H. apply IH in H as [[? ?]|(pre & rest & -> & H)];
          [discriminate|].
        right. now exists (c :: pre), rest.
Qed.

Lemma exec_complete_here (name s v : jsstring) :
  entry_here name s v -> exec true name s <> None.
Proof.
  intros H. apply after_anchor_complete in H.
  destruct s; simpl; unfold match_at, bol_or_semicolon;
    destruct (after_anchor name _); congruence.
Qed.

Lemma exec_complete_later (name pre rest v : jsstring) (bol : bool) :
  entry_here name rest v -> exec bol name (pre ++ 59%N :: rest) <> None.
Proof.
  intros H. apply after_anchor_complete in H.
  revert bol. induction pre as [|c pre IH]; intros bol; simpl.
  - unfold match_at, bol_or_semicolon.
    destruct (if bol then _ else None); [discriminate|].
    rewrite N.eqb_refl. destruct (after_anchor name rest); congruence.
  - destruct (match_at bol name (c :: pre ++ 59%N :: rest));
      [discriminate|apply IH].
Qed.

(** What the pattern captures is the value of an entry of the name. *)
Theorem match_cookie_sound (name cookie v : jsstring) :
  match_cookie name cookie = Some v -> has_entry name cookie v.
Proof.
  intros H. apply exec_sound in H as [[_ H]|H]; [now left|now right].
Qed.

Theorem match_cookie_None (name cookie : jsstring) :
  match_cookie name cookie = None <-> cookie_absent name cookie.
Proof.
  split.
  - intros H v [E|(pre & rest & -> & E)].
    + now apply (exec_complete_here _ _ _ E).
    + now apply (exec_complete_later _ pre _ _ true E).
  - intros H. destruct (match_cookie name cookie) eqn:E; [|reflexivity].
    exfalso. exact (H _ (match_cookie_sound _ _ _ E)).
Qed.

End RegExpFacts.

(** ** Percent-decoding *)

Module URIFacts.
Import URI.

(** The only exception of the decoder is URIError. *)
Lemma decode_Throw (s : jsstring) : forall skip x,
  decode skip s = Throw x -> x = URIError.
Proof.
  induction s as [|c s IH]; intros skip x; simpl; [discriminate|].
  destruct skip as [|k]; [|apply IH].
  destruct (N.eqb c 37).
  - destruct (decode_escape (c :: s)) as [[out used]|]; [|congruence].
    destruct (decode (used - 1) s) eqn:E; simpl; [discriminate|].
    intros H; inversion H; subst. now apply (IH _ _ E).
  - destruct (decode 0 s) eqn:E; simpl; [discriminate|].
    intros H; inversion H; subst. now apply (IH _ _ E).
Qed.

(** A text without [%] decodes to itself. *)
Lemma decode_no_percent (s : jsstring) :
  ~ In 37%N s -> decodeURIComponent s = Normal s.
Proof.
  unfold decodeURIComponent.
  induction s as [|c s IH]; intros H; simpl; [reflexivity|].
  destruct (N.eqb c 37) eqn:E.
  - apply N.eqb_eq in E. exfalso. apply H. now left.
  - rewrite IH; [reflexivity|]. intros H'. apply H. now right.
Qed.

Lemma decodeURIComponent_Throw (s : jsstring) (x : exn) :
  decodeURIComponent s = Throw x -> x = URIError /\ In 37%N s.
Proof.
  intros H. split; [exact (decode_Throw _ _ _ H)|].
  destruct (in_dec N.eq_dec 37%N s) as [Hin|Hout]; [exact Hin|].
  rewrite (decode_no_percent _ Hout) in H. discriminate.
Qed.

Example decode_ascii_escape :
  decodeURIComponent (str "a%3Db%2e") = Normal (str "a=b.").
Proof. reflexivity. Qed.

Example decode_euro_sign :
  decodeURIComponent (str "%E2%82%AC") = Normal [8364%N].
Proof. reflexivity. Qed.

Example decode_surrogate_pair :
  decodeURIComponent (str "%F0%9F%98%80") = Normal [55357%N; 56832%N].
Proof. reflexivity. Qed.

Example decode_lone_percent :
  decodeURIComponent (str "100%") = Throw URIError.
Proof. reflexivity. Qed.

Example decode_overlong :
  decodeURIComponent (str "%C0%80") = Throw URIError.
Proof. reflexivity. Qed.

Example decode_truncated :
  decodeURIComponent (str "%E2%82") = Throw URIError.
Proof. reflexivity. Qed.

End URIFacts.

(** ** The cookie reader *)

Lemma run_bind_Normal A B (m : M A) (f : A -> M B) (e : env) t a :
  m e = (t, Normal a) ->
  bind m f e = (t ++ trace (f a e), result (f a e)).
Proof.
  intros H. unfold bind, trace, result. rewrite H.
  now destruct (f a e).
Qed.

Lemma run_bind_Throw A B (m : M A) (f : A -> M B) (e : env) t x :
  m e = (t, Throw x) -> bind m f e = (t, Throw x).
Proof. intros H. unfold bind. now rewrite H. Qed.

Lemma readCookie_run (name : jsstring) (e : env) :
  readCookie name e =
  ([ReadCookie],
   match RegExp.match_cookie name (document_cookie e) with
   | Some raw => URI.decodeURIComponent raw
   | None => Normal []
   end).
Proof.
  unfold readCookie, bind, read_document_cookie.
  now destruct (RegExp.match_cookie name (document_cookie e)).
Qed.

(** C7, counterexample: the cookie [_ga=100%] is present, and reading it
    throws URIError instead of returning a string. *)
Lemma readCookie_throws_on_malformed_escape :
  has_entry (str "_ga") (str "_ga=100%") (str "100%") /\
  result (readCookie (str "_ga") (cookie_env (str "_ga=100%")))
  = Throw URIError.
Proof.
  split; [|reflexivity].
  left. exists [], [], [], []. now repeat split.
Qed.

Lemma readCookie_absent (name : jsstring) (e : env) :
  cookie_absent name (document_cookie e) ->
  result (readCookie name e) = Normal [].
Proof.
  intros H. rewrite readCookie_run. unfold result; simpl.
  apply RegExpFacts.match_cookie_None in H. now rewrite H.
Qed.

Lemma readCookie_present (name : jsstring) (e : env) :
  (exists v, has_entry name (document_cookie e) v) ->
  exists raw, has_entry name (document_cookie e) raw /\
              result (readCookie name e) = URI.decodeURIComponent raw.
Proof.
  intros [v Hv]. rewrite readCookie_run. unfold result; simpl.
  destruct (RegExp.match_cookie name (document_cookie e)) as [raw|] eqn:E.
  - exists raw. split; [|reflexivity].
    now apply RegExpFacts.match_cookie_sound.
  - apply RegExpFacts.match_cookie_None in E. now destruct (E v).
Qed.

Lemma readCookie_Throw (name : jsstring) (e : env) (x : exn) :
  result (readCookie name e) = Throw x ->
  x = URIError /\
  exists raw, has_entry name (document_cookie e) raw /\ In 37%N raw /\
              URI.decodeURIComponent raw = Throw URIError.
Proof.
  rewrite readCookie_run. unfold result; simpl. intros H.
  destruct (RegExp.match_cookie name (document_cookie e)) as [raw|] eqn:E;
    [|discriminate].
  destruct (URIFacts.decodeURIComponent_Throw _ _ H) as [-> Hin].
  split; [reflexivity|]. exists raw.
  split; [now apply RegExpFacts.match_cookie_sound|]. now split.
Qed.

(** C7, amended: for every cookie name and every cookie string, [readCookie]
    reads [document.cookie] once; it returns the empty string when the
    cookie string holds no entry of the name; when it holds one, the outcome
    is that of percent-decoding the value of such an entry, so the decoded
    value when the raw value is well formed; and it throws nothing but
    URIError, and only when that raw value holds a [%] that the decoder
    rejects. *)
Theorem readCookie_decodes_or_throws_URIError (name : jsstring) (e : env) :
  trace (readCookie name e) = [ReadCookie] /\
  (cookie_absent name (document_cookie e) ->
   result (readCookie name e) = Normal []) /\
  ((exists v, has_entry name (document_cookie e) v) ->
   exists raw, has_entry name (document_cookie e) raw /\
               result (readCookie name e) = URI.decodeURIComponent raw) /\
  (forall x, result (readCookie name e) = Throw x ->
   x = URIError /\
   exists raw, has_entry name (document_cookie e) raw /\ In 37%N raw /\
               URI.decodeURIComponent raw = Throw URIError).
Proof.
  split; [now rewrite readCookie_run|].
  split; [apply readCookie_absent|].
  split; [apply readCookie_present|apply readCookie_Throw].
Qed.

(** ** The cookie accessors *)

Lemma getClientIdFromCookie_run (e : env) :
  getClientIdFromCookie e =
  ([ReadCookie], cmap client_id_of (result (readCookie (str "_ga") e))).
Proof.
  unfold getClientIdFromCookie.
  destruct (readCookie (str "_ga") e) as [t [v|x]] eqn:E;
    pose proof (readCookie_run (str "_ga") e) as R; rewrite E in R;
    inversion R; subst t.
  - rewrite (run_bind_Normal _ _ _ _ _ _ _ E).
    unfold result; simpl. now destruct v.
  - now rewrite (run_bind_Throw _ _ _ _ _ _ _ E).
Qed.

Lemma getSessionIdFromCookie_run (measurementId : jsstring) (e : env) :
  getSessionIdFromCookie measurementId e =
  ([ReadCookie],
   cmap session_id_of
        (result (readCookie (session_cookie_name measurementId) e))).
Proof.
  unfold getSessionIdFromCookie. fold (session_cookie_name measurementId).
  set (name := session_cookie_name measurementId).
  destruct (readCookie name e) as [t [v|x]] eqn:E;
    pose proof (readCookie_run name e) as R; rewrite E in R;
    inversion R; subst t.
  - rewrite (run_bind_Normal _ _ _ _ _ _ _ E).
    unfold result; simpl. now destruct v.
  - now rewrite (run_bind_Throw _ _ _ _ _ _ _ E).
Qed.

(** Field by field: a value written as four or more dot-free fields joined
    by dots yields its third and fourth field, joined by a dot. *)
Lemma client_id_of_fields (f0 f1 f2 f3 : jsstring) (more : list jsstring) :
  Forall (fun f => ~ In 46%N f) (f0 :: f1 :: f2 :: f3 :: more) ->
  client_id_of (JsString.join 46 (f0 :: f1 :: f2 :: f3 :: more))
  = f2 ++ str "." ++ f3.
Proof.
  intros H. unfold client_id_of.
  rewrite JsStringFacts.split_join; [reflexivity|discriminate|exact H].
Qed.

Lemma client_id_of_few_fields (fields : list jsstring) :
  Forall (fun f => ~ In 46%N f) fields -> List.length fields < 4 ->
  client_id_of (JsString.join 46 fields) = [].
Proof.
  intros H L. unfold client_id_of.
  destruct fields as [|f fs]; [reflexivity|].
  rewrite JsStringFacts.split_join; [|discriminate|exact H].
  destruct (Nat.leb_spec 4 (List.length (f :: fs))); [lia|reflexivity].
Qed.

Lemma session_id_of_fields (f0 f1 f2 : jsstring) (more : list jsstring) :
  Forall (fun f => ~ In 46%N f) (f0 :: f1 :: f2 :: more) ->
  session_id_of (JsString.join 46 (f0 :: f1 :: f2 :: more)) = f2.
Proof.
  intros H. unfold session_id_of.
  rewrite JsStringFacts.split_join; [reflexivity|discriminate|exact H].
Qed.

Lemma session_id_of_few_fields (fields : list jsstring) :
  Forall (fun f => ~ In 46%N f) fields -> List.length fields < 3 ->
  session_id_of (JsString.join 46 fields) = [].
Proof.
  intros H L. unfold session_id_of.
  destruct fields as [|f fs]; [reflexivity|].
  rewrite JsStringFacts.split_join; [|discriminate|exact H].
  destruct (Nat.leb_spec 3 (List.length (f :: fs))); [lia|reflexivity].
Qed.

(** C6, counterexample: the cookie [_ga=%] is present and has a single
    field, yet the accessor throws URIError instead of returning the empty
    string. *)
Lemma getClientIdFromCookie_throws_on_malformed_escape :
  has_entry (str "_ga") (str "_ga=%") (str "%") /\
  List.length (JsString.split 46 (str "%")) = 1 /\
  result (getClientIdFromCookie (cookie_env (str "_ga=%"))) = Throw URIError.
Proof.
  split; [|split; reflexivity].
  left. exists [], [], [], []. now repeat split.
Qed.

(** C6, amended: for every cookie string, the accessor reads the [_ga]
    cookie once.  When that cookie is absent it returns the empty string.
    When [readCookie] returns the decoded value [v], it splits [v] on [.]
    and returns fields 2 and 3 joined by [.] if there are at least 4 fields,
    and the empty string if there are fewer.  When [readCookie] throws, which
    it does only with URIError on a raw value that is not well-formed
    percent-encoding, the accessor throws the same.  In particular
    [_ga=GA1.2.1234567890.1111111111] yields [1234567890.1111111111] and
    [_ga=GA1.2] yields the empty string without error. *)
Theorem getClientIdFromCookie_fields_2_and_3 (e : env) :
  trace (getClientIdFromCookie e) = [ReadCookie] /\
  (cookie_absent (str "_ga") (document_cookie e) ->
   result (getClientIdFromCookie e) = Normal []) /\
  (forall v, result (readCookie (str "_ga") e) = Normal v ->
   let parts := JsString.split 46 v in
   JsString.join 46 parts = v /\
   Forall (fun f => ~ In 46%N f) parts /\
   (4 <= List.length parts ->
    result (getClientIdFromCookie e)
    = Normal (JsString.field 2 parts ++ str "." ++ JsString.field 3 parts)) /\
   (List.length parts < 4 ->
    result (getClientIdFromCookie e) = Normal [])) /\
  (forall x, result (readCookie (str "_ga") e) = Throw x ->
   x = URIError /\ result (getClientIdFromCookie e) = Throw URIError) /\
  result (getClientIdFromCookie
            (cookie_env (str "_ga=GA1.2.1234567890.1111111111")))
  = Normal (str "1234567890.1111111111") /\
  result (getClientIdFromCookie (cookie_env (str "_ga=GA1.2"))) = Normal [].
Proof.
  assert (R : result (getClientIdFromCookie e)
              = cmap client_id_of (result (readCookie (str "_ga") e)))
    by now rewrite getClientIdFromCookie_run.
  split; [now rewrite getClientIdFromCookie_run|].
  split; [|split; [|split; [|split; reflexivity]]].
  - intros H. now rewrite R, (readCookie_absent _ _ H).
  - intros v Hv. rewrite R, Hv. simpl.
    split; [apply JsStringFacts.join_split|].
    split; [apply JsStringFacts.split_fields|].
    unfold client_id_of. split; intros L.
    + destruct (Nat.leb_spec 4 (List.length (JsString.split 46 v)));
        [reflexivity|lia].
    + destruct (Nat.leb_spec 4 (List.length (JsString.split 46 v)));
        [lia|reflexivity].
  - intros x Hx. rewrite R, Hx. simpl.
    destruct (readCookie_Throw _ _ _ Hx) as [-> _]. now split.
Qed.

Lemma session_cookie_name_index_of (measurementId : jsstring) :
  session_cookie_name measurementId =
  str "_ga_" ++
  match JsString.index_of (str "G-") measurementId with
  | Some i => firstn i measurementId ++ skipn (i + 2) measurementId
  | None => measurementId
  end.
Proof.
  unfold session_cookie_name.
  now rewrite JsStringFacts.replace_first_index_of.
Qed.

Lemma session_cookie_name_prefix (rest : jsstring) :
  session_cookie_name (str "G-" ++ rest) = str "_ga_" ++ rest.
Proof.
  unfold session_cookie_name.
  now rewrite JsStringFacts.replace_first_prefix.
Qed.

(** C5, counterexample: for the measurement id [XG-1], which has no [G-]
    prefix, stripping a prefix leaves the id alone and the cookie
    [_ga_XG-1] would be read, yielding [9988]; the source removes the inner
    [G-], reads [_ga_X1], and returns the empty string.  And for the id
    [G-ABCDEF1234] and the cookie [_ga_ABCDEF1234=%], which has a single
    field, the accessor throws URIError instead of returning the empty
    string. *)
Lemma getSessionIdFromCookie_strips_inner_G_dash :
  strip_G_prefix (str "XG-1") = str "XG-1" /\
  result (session_id_with_prefix_stripped (str "XG-1")
            (cookie_env (str "_ga_XG-1=GS1.1.9988.5")))
  = Normal (str "9988") /\
  session_cookie_name (str "XG-1") = str "_ga_X1" /\
  result (getSessionIdFromCookie (str "XG-1")
            (cookie_env (str "_ga_XG-1=GS1.1.9988.5")))
  = Normal [] /\
  result (getSessionIdFromCookie (str "G-ABCDEF1234")
            (cookie_env (str "_ga_ABCDEF1234=%")))
  = Throw URIError.
Proof. repeat split; reflexivity. Qed.

(** C5, amended: for every measurement id, the accessor builds the cookie
    name by removing the leftmost occurrence of the literal [G-] from the
    id, wherever it stands (the prefix, when the id starts with [G-]), and
    prepending [_ga_]; it reads that cookie once.  When the cookie is absent
    it returns the empty string.  When [readCookie] returns the decoded
    value [v], it splits [v] on [.] and returns the field at index 2 if
    there are at least 3 fields, and the empty string if there are fewer.
    When [readCookie] throws, which it does only with URIError on a raw
    value that is not well-formed percent-encoding, the accessor throws the
    same.  In particular the cookie [_ga_ABCDEF1234=GS1.1.9988.5] and the
    id [G-ABCDEF1234] yield [9988]. *)
Theorem getSessionIdFromCookie_field_2 (measurementId : jsstring) (e : env) :
  session_cookie_name measurementId
  = str "_ga_" ++
    match JsString.index_of (str "G-") measurementId with
    | Some i => firstn i measurementId ++ skipn (i + 2) measurementId
    | None => measurementId
    end /\
  (forall rest, measurementId = str "G-" ++ rest ->
   session_cookie_name measurementId = str "_ga_" ++ rest) /\
  trace (getSessionIdFromCookie measurementId e) = [ReadCookie] /\
  (cookie_absent (session_cookie_name measurementId) (document_cookie e) ->
   result (getSessionIdFromCookie measurementId e) = Normal []) /\
  (forall v,
   result (readCookie (session_cookie_name measurementId) e) = Normal v ->
   let p := JsString.split 46 v in
   JsString.join 46 p = v /\
   Forall (fun f => ~ In 46%N f) p /\
   (3 <= List.length p ->
    result (getSessionIdFromCookie measurementId e)
    = Normal (JsString.field 2 p)) /\
   (List.length p < 3 ->
    result (getSessionIdFromCookie measurementId e) = Normal [])) /\
  (forall x,
   result (readCookie (session_cookie_name measurementId) e) = Throw x ->
   x = URIError /\
   result (getSessionIdFromCookie measurementId e) = Throw URIError) /\
  result (getSessionIdFromCookie (str "G-ABCDEF1234")
            (cookie_env (str "_ga_ABCDEF1234=GS1.1.9988.5")))
  = Normal (str "9988").
Proof.
  assert (R : result (getSessionIdFromCookie measurementId e)
              = cmap session_id_of
                  (result (readCookie (session_cookie_name measurementId) e)))
    by now rewrite getSessionIdFromCookie_run.
  split; [apply session_cookie_name_index_of|].
  split; [intros rest ->; apply session_cookie_name_prefix|].
  split; [now rewrite getSessionIdFromCookie_run|].
  split; [|split; [|split; [|reflexivity]]].
  - intros H. now rewrite R, (readCookie_absent _ _ H).
  - intros v Hv. rewrite R, Hv. simpl.
    split; [apply JsStringFacts.join_split|].
    split; [apply JsStringFacts.split_fields|].
    unfold session_id_of. split; intros L.
    + destruct (Nat.leb_spec 3 (List.length (JsString.split 46 v)));
        [reflexivity|lia].
    + destruct (Nat.leb_spec 3 (List.length (JsString.split 46 v)));
        [lia|reflexivity].
  - intros x Hx. rewrite R, Hx. simpl.
    destruct (readCookie_Throw _ _ _ Hx) as [-> _]. now split.
Qed.

(** ** The availability check *)

Lemma isGtagAvailable_run (measurementId : jsstring) (e : env) :
  isGtagAvailable measurementId e =
  ([], Normal (if is_function (window_gtag e) then
                 if window_google_tag_manager e then JStr measurementId
                 else JBool false
               else JBool false)).
Proof. reflexivity. Qed.

Lemma live_api_available_iff (measurementId : jsstring) (e : env) :
  live_api_available measurementId e = true <->
  is_function (window_gtag e) = true /\
  window_google_tag_manager e = true /\
  measurementId <> [].
Proof.
  unfold live_api_available. rewrite isGtagAvailable_run. unfold result; simpl.
  destruct (is_function (window_gtag e)), (window_google_tag_manager e);
    simpl; try (split; [discriminate|intros (? & ? & _); discriminate]).
  destruct measurementId; simpl.
  - split; [discriminate|now intros (_ & _ & H)].
  - split; [|reflexivity]. intros _. repeat split; discriminate.
Qed.


(** ** The live-API wrappers *)

Section Resolving.
Variable X : Type.
Variable g : X -> jsval.

Let step (st : pstate) (x : X) : pstate := resolve (g x) st.

Lemma fold_resolve_Fulfilled (xs : list X) (v : jsval) :
  fold_left step xs (Fulfilled v) = Fulfilled v.
Proof. induction xs as [|x xs IH]; simpl; [reflexivity|exact IH]. Qed.

Lemma fold_resolve_first (x : X) (xs : list X) :
  fold_left step (x :: xs) Pending = Fulfilled (g x).
Proof. simpl. apply fold_resolve_Fulfilled. Qed.

Lemma fold_resolve_not_Rejected (xs : list X) (st : pstate) (e : exn) :
  (forall e', st <> Rejected e') -> fold_left step xs st <> Rejected e.
Proof.
  revert st. induction xs as [|x xs IH]; intros st H; simpl; [apply H|].
  apply IH. intros e'. unfold step. destruct st; simpl; [discriminate| |].
  - discriminate.
  - apply H.
Qed.

Lemma fold_resolve_stable (xs ys : list X) (st : pstate) (v : jsval) :
  fold_left step xs st = Fulfilled v ->
  fold_left step (xs ++ ys) st = Fulfilled v.
Proof.
  intros H. rewrite fold_left_app, H. apply fold_resolve_Fulfilled.
Qed.
End Resolving.

Lemma firstn_le_app A (l : list A) (k k' : nat) :
  k <= k' -> exists more, firstn k' l = firstn k l ++ more.
Proof.
  revert k k'. induction l as [|a l IH]; intros k k' L.
  - exists []. now rewrite !firstn_nil.
  - destruct k as [|k].
    + exists (firstn k' (a :: l)). reflexivity.
    + destruct k' as [|k']; [lia|].
      destruct (IH k k') as [more E]; [lia|].
      exists more. simpl. now rewrite E.
Qed.

Lemma gtag_executor_run (property message measurementId : jsstring) (e : env) :
  gtag_executor property message measurementId e =
  let run := snd (call_gtag measurementId property e) in
  let st := fold_left (fun st v => resolve (or_empty v) st)
                      (sync_values run) Pending in
  (fst (call_gtag measurementId property e)
     ++ match sync_throw run with
        | Some error => [Warn message error]
        | None => []
        end,
   Normal {| after_executor :=
               match sync_throw run with
               | Some _ => resolve (JStr []) st
               | None => st
               end;
             callbacks := later_values run |}).
Proof.
  unfold gtag_executor.
  destruct (call_gtag measurementId property e) as [t run]; simpl.
  destruct (sync_throw run); [reflexivity|now rewrite app_nil_r].
Qed.

Lemma gtag_executor_contract (property message : jsstring) :
  never_rejects_and_resolves_once
    (gtag_executor property message) property message.
Proof.
  intros measurementId e run.
  rewrite gtag_executor_run. fold run.
  set (st := fold_left (fun st v => resolve (or_empty v) st)
                       (sync_values run) Pending).
  set (p := {| after_executor :=
                 match sync_throw run with
                 | Some _ => resolve (JStr []) st
                 | None => st
                 end;
               callbacks := later_values run |}).
  exists p. unfold result, trace; simpl fst; simpl snd.
  assert (NR : forall x, after_executor p <> Rejected x).
  { intros x. unfold p; simpl.
    assert (forall x', st <> Rejected x')
      by (intros x'; apply fold_resolve_not_Rejected; discriminate).
    destruct (sync_throw run); [|apply H].
    destruct st; simpl; try discriminate. apply H. }
  split; [reflexivity|].
  split; [|split; [|split; [|split; [|split; [|split]]]]].
  - intros k x. unfold state_after.
    apply (fold_resolve_not_Rejected _ (fun cb => or_empty (snd cb))).
    exact NR.
  - intros now t x. unfold settlement.
    destruct (after_executor p) eqn:E.
    + destruct (callbacks p) as [|[gap v] rest]; [discriminate|].
      intros H; inversion H.
    + intros H; inversion H.
    + now destruct (NR e0).
  - intros v rest Hs. unfold state_after; simpl. subst st. rewrite Hs.
    rewrite fold_resolve_first.
    now destruct (sync_throw run).
  - intros gap v rest Hs Ht Hl.
    assert (E0 : after_executor p = Pending)
      by (unfold p; simpl; subst st; now rewrite Hs, Ht).
    split; [exact E0|]. split.
    + intros k Hk. unfold state_after. rewrite E0.
      change (callbacks p) with (later_values run). rewrite Hl.
      destruct k as [|k]; [lia|]. simpl firstn.
      apply (fold_resolve_first _ (fun cb => or_empty (snd cb))).
    + intros now. unfold settlement. rewrite E0.
      change (callbacks p) with (later_values run). now rewrite Hl.
  - intros error Ht. split.
    + apply in_or_app. right. rewrite Ht. now left.
    + intros Hs. unfold state_after, p; simpl. subst st.
      now rewrite Hs, Ht.
  - intros Hs Ht Hl.
    assert (E0 : after_executor p = Pending)
      by (unfold p; simpl; subst st; now rewrite Hs, Ht).
    split.
    + intros k. unfold state_after. rewrite E0.
      change (callbacks p) with (later_values run). rewrite Hl.
      now rewrite firstn_nil.
    + intros now. unfold settlement. rewrite E0.
      change (callbacks p) with (later_values run). now rewrite Hl.
  - intros k k' v L H. unfold state_after in *.
    destruct (firstn_le_app _ (callbacks p) k k' L) as [more ->].
    now apply (fold_resolve_stable _ (fun cb => or_empty (snd cb))).
Qed.

(** ** The wrappers when the callback is handed any value *)

Module AnyFacts.

Lemma fold_resolved (l : list (N * Any.callback_value)) (t : N)
    (c : Any.callback_value) :
  fold_left (fun st tc => Any.resolve (fst tc) (snd tc) st) l
            (Any.ResolvedWith t c)
  = Any.ResolvedWith t c.
Proof. induction l as [|a l IH]; [reflexivity|exact IH]. Qed.

Lemma state_after_nil (k : nat) : Any.state_after [] k = Any.Pending.
Proof. unfold Any.state_after. now rewrite firstn_nil. Qed.

(** The first call of [resolve] decides. *)
Lemma state_after_cons (tc : N * Any.callback_value)
    (rest : Any.live_promise) (k : nat) :
  1 <= k ->
  Any.state_after (tc :: rest) k = Any.ResolvedWith (fst tc) (snd tc).
Proof.
  intros H. destruct k as [|k]; [lia|].
  unfold Any.state_after. simpl. apply fold_resolved.
Qed.

Lemma outcome_nil : Any.outcome [] = None.
Proof. reflexivity. Qed.

Lemma outcome_cons (tc : N * Any.callback_value) (rest : Any.live_promise) :
  Any.outcome (tc :: rest)
  = Any.settlement (Any.ResolvedWith (fst tc) (snd tc)).
Proof.
  unfold Any.outcome. rewrite state_after_cons; [reflexivity|simpl; lia].
Qed.

Lemma state_after_stable (p : Any.live_promise) (k : nat) :
  1 <= k -> Any.state_after p k = Any.state_after p 1.
Proof.
  intros H. destruct p as [|tc rest].
  - now rewrite !state_after_nil.
  - rewrite !state_after_cons; [reflexivity|lia|exact H].
Qed.

Lemma state_after_not_Rejected (p : Any.live_promise) (k : nat) (t : N)
    (x : exn) :
  Any.state_after p k <> Any.Rejected t x.
Proof.
  destruct p as [|tc rest]; [now rewrite state_after_nil|].
  destruct k as [|k]; [discriminate|].
  rewrite state_after_cons by lia. discriminate.
Qed.

Lemma outcome_first (p : Any.live_promise) :
  Any.outcome p = Any.settlement (Any.state_after p 1).
Proof.
  destruct p as [|tc rest]; [reflexivity|].
  rewrite outcome_cons, state_after_cons; [reflexivity|lia].
Qed.

(** A promise that is only resolved is rejected in one way: its first
    [resolve] was handed a thenable that rejects. *)
Lemma outcome_Throw (p : Any.live_promise) (t : N) (x : exn) :
  Any.outcome p = Some (t, Throw x) ->
  exists t0 d,
    Any.state_after p 1
    = Any.ResolvedWith t0 (Any.Thenable (Some (d, Throw x))) /\
    t = (t0 + d)%N.
Proof.
  rewrite outcome_first.
  destruct (Any.state_after p 1) as [|t0 [v|[[d r]|]]| t0 y] eqn:E; simpl;
    try discriminate.
  - intros H. injection H as <- ->. now exists t0, d.
  - now apply state_after_not_Rejected in E.
Qed.

Lemma or_empty_plain (c : Any.callback_value) :
  Any.is_plain c -> Any.is_plain (Any.or_empty c).
Proof.
  destruct c as [v|fate]; simpl; [|tauto].
  now destruct (Any.value_truthy v).
Qed.

Lemma later_instants_plain (l : list (N * Any.callback_value)) (t : N) :
  Forall (fun gc => Any.is_plain (snd gc)) l ->
  Forall (fun tc => Any.is_plain (snd tc)) (Any.later_instants t l).
Proof.
  intros H. revert t.
  induction H as [|[gap c] l Hc _ IH]; intros t; simpl; constructor.
  - exact Hc.
  - apply IH.
Qed.

Lemma resolve_calls_plain (now : N) (run : Any.gtag_run) :
  Forall Any.is_plain (Any.sync_calls run) ->
  Forall (fun gc => Any.is_plain (snd gc)) (Any.later_calls run) ->
  Forall (fun tc => Any.is_plain (snd tc)) (Any.resolve_calls now run).
Proof.
  intros Hs Hl. unfold Any.resolve_calls.
  apply Forall_app. split; [|apply Forall_app; split].
  - apply Forall_map. apply (Forall_impl _ (fun c => or_empty_plain c) Hs).
  - destruct (Any.throws run); constructor; [exact I|constructor].
  - apply Forall_map.
    apply (Forall_impl _ (fun tc => or_empty_plain (snd tc))
                       (later_instants_plain _ now Hl)).
Qed.

Lemma plain_never_rejects (p : Any.live_promise) (t : N) (x : exn) :
  Forall (fun tc => Any.is_plain (snd tc)) p ->
  Any.outcome p <> Some (t, Throw x).
Proof.
  intros H E. destruct p as [|tc rest]; [discriminate|].
  rewrite outcome_cons in E. inversion H as [|? ? Hc _]; subst.
  destruct (snd tc); [discriminate|exact Hc].
Qed.

End AnyFacts.

Lemma any_gtag_executor_Callable (property message measurementId : jsstring)
    (e : Any.env) (now : N) (f : jsstring -> jsstring -> Any.gtag_run) :
  Any.window_gtag e = Any.Callable f ->
  Any.gtag_executor property message measurementId e now
  = (CallGtag measurementId property
     :: match Any.throws (f measurementId property) with
        | Some error => [Warn message error]
        | None => []
        end,
     Any.resolve_calls now (f measurementId property)).
Proof.
  intros H. unfold Any.gtag_executor, Any.call_gtag. rewrite H. reflexivity.
Qed.

Lemma any_gtag_executor_contract (property message : jsstring) :
  resolves_once_and_rejects_only_as_a_thenable
    (Any.gtag_executor property message) property message.
Proof.
  intros measurementId e now. cbv zeta.
  split; [|split; [|split; [|split; [|split; [|split]]]]].
  - intros H. unfold Any.gtag_executor, Any.call_gtag. rewrite H.
    split; reflexivity.
  - intros H. unfold Any.gtag_executor, Any.call_gtag. rewrite H.
    split; reflexivity.
  - intros f H. rewrite (any_gtag_executor_Callable _ _ _ _ _ _ H).
    cbn [fst snd]. set (run := f measurementId property).
    split; [reflexivity|].
    unfold Any.resolve_calls.
    split; [|split; [|split; [|split; [|split; [|split]]]]].
    + intros v rest ->. simpl. rewrite AnyFacts.outcome_cons. simpl.
      now destruct (Any.value_truthy v).
    + intros fate rest ->. simpl. now rewrite AnyFacts.outcome_cons.
    + intros error -> ->. simpl. now rewrite AnyFacts.outcome_cons.
    + intros gap v rest -> -> ->. simpl. rewrite AnyFacts.outcome_cons.
      simpl. now destruct (Any.value_truthy v).
    + intros gap fate rest -> -> ->. simpl.
      now rewrite AnyFacts.outcome_cons.
    + intros -> -> ->. reflexivity.
    + intros Hs Hl t x. apply AnyFacts.plain_never_rejects.
      now apply AnyFacts.resolve_calls_plain.
  - intros k t x. apply AnyFacts.state_after_not_Rejected.
  - intros k. apply AnyFacts.state_after_stable.
  - apply AnyFacts.outcome_first.
  - intros t x. apply AnyFacts.outcome_Throw.
Qed.

(** C3: for every measurement id, every state of the globals and every
    instant, each of the two wrappers returns a promise that is never
    rejected directly and that [resolve] binds once, to the argument of its
    first call.  When [gtag] is no
    function, or throws before it invokes the callback, the exception is
    caught, a warning is emitted and the promise is fulfilled with the
    empty string.  When the callback is first handed a value that is not a
    thenable, the promise is fulfilled with that value, or with the empty
    string when the value is falsy; when it is first handed a thenable, the
    promise settles as the thenable does.  The promise is never rejected
    unless that first value is a thenable that rejects, so it is never
    rejected when no thenable is handed to the callback; and it stays
    pending when the call neither throws nor ever invokes the callback. *)
Theorem gtag_wrappers_reject_only_as_a_thenable :
  resolves_once_and_rejects_only_as_a_thenable
    Any.getClientIdFromGtag (str "client_id")
    (str "Error getting client_id from gtag:") /\
  resolves_once_and_rejects_only_as_a_thenable
    Any.getSessionIdFromGtag (str "session_id")
    (str "Error getting session_id from gtag:").
Proof. split; apply any_gtag_executor_contract. Qed.

(** C3, where a wrapper rejects: [gtag] hands its callback a thenable that
    rejects.  The callback resolves the promise of [getClientIdFromGtag]
    with it, nothing is thrown and nothing is warned, and the promise is
    rejected with the thenable's reason. *)
Lemma getClientIdFromGtag_rejects_with_a_thenable :
  let e := any_page [] (rejecting_gtag (UserError (str "denied"))) in
  Any.getClientIdFromGtag (str "G-ABCDEF1234") e 0
  = ([CallGtag (str "G-ABCDEF1234") (str "client_id")],
     [(0%N, Any.Thenable (Some (0%N, Throw (UserError (str "denied")))))]) /\
  Any.outcome (snd (Any.getClientIdFromGtag (str "G-ABCDEF1234") e 0))
  = Some (0%N, Throw (UserError (str "denied"))).
Proof. split; reflexivity. Qed.

(** ** The resolvers *)

Section Resolver.
Variables property wrapper_message message : jsstring.
Variable accessor : jsstring -> M jsstring.

Let body := resolver_body property wrapper_message message accessor.
Let wrapper := gtag_executor property wrapper_message.

(** The accessors read the cookie once and do nothing else. *)
Hypothesis accessor_trace :
  forall measurementId e, trace (accessor measurementId e) = [ReadCookie].

Lemma fallback_run (measurementId : jsstring) (e : env) :
  (v <- accessor measurementId ;; ret (JStr v)) e =
  (trace (accessor measurementId e),
   cmap JStr (result (accessor measurementId e))).
Proof.
  unfold bind, ret, trace, result.
  destruct (accessor measurementId e) as [t [v|x]]; simpl;
    [now rewrite app_nil_r|reflexivity].
Qed.

Lemma resume_truthy (fallback : M jsval) (v : jsval) (e : env) :
  truthy v = true -> resume message fallback (Normal v) e = ([], Normal v).
Proof. intros H. unfold resume. now rewrite H. Qed.

Lemma resume_falsy (fallback : M jsval) (v : jsval) (e : env) :
  truthy v = false -> resume message fallback (Normal v) e = fallback e.
Proof. intros H. unfold resume. now rewrite H. Qed.

Lemma resume_Throw (fallback : M jsval) (x : exn) (e : env) :
  resume message fallback (Throw x) e
  = (Warn message x :: trace (fallback e), result (fallback e)).
Proof.
  unfold resume, bind, console_warn, trace, result.
  now destruct (fallback e).
Qed.

Lemma body_unavailable (measurementId : jsstring) (timeout : option Z)
    (e : env) :
  live_api_available measurementId e = false ->
  body measurementId timeout e =
  (trace (accessor measurementId e),
   cmap (fun v => Returned (JStr v)) (result (accessor measurementId e))).
Proof.
  unfold live_api_available. rewrite isGtagAvailable_run.
  unfold result at 1; simpl snd. intros H.
  unfold body, resolver_body.
  rewrite (run_bind_Normal _ _ _ _ _ _ _ (isGtagAvailable_run _ _)).
  rewrite H. simpl app.
  unfold bind, ret, trace, result.
  destruct (accessor measurementId e) as [t [v|x]]; simpl;
    [now rewrite !app_nil_r|reflexivity].
Qed.

Lemma body_available (measurementId : jsstring) (timeout : option Z)
    (e : env) :
  live_api_available measurementId e = true ->
  exists live,
    result (wrapper measurementId e) = Normal live /\
    body measurementId timeout e =
    (trace (wrapper measurementId e) ++ [SetTimeout (timer_delay timeout)],
     Normal (Awaiting
               (fun now => race (settlement now live)
                                (timer now (timer_delay timeout)))
               (resume message
                       (v <- accessor measurementId ;; ret (JStr v))))).
Proof.
  unfold live_api_available. rewrite isGtagAvailable_run.
  unfold result at 1; simpl snd. intros H.
  unfold body, resolver_body, wrapper.
  rewrite (run_bind_Normal _ _ _ _ _ _ _ (isGtagAvailable_run _ _)).
  rewrite H. simpl app.
  pose proof (gtag_executor_run property wrapper_message measurementId e)
    as R. cbv zeta in R.
  destruct (gtag_executor property wrapper_message measurementId e)
    as [tw [live|x]] eqn:E; [|discriminate].
  exists live. split; [reflexivity|].
  rewrite (run_bind_Normal _ _ _ _ _ _ _ E).
  unfold trace, result, bind, set_timeout, ret; simpl.
  reflexivity.
Qed.

Lemma wrapper_trace_no_cookie (measurementId : jsstring) (e : env) :
  ~ In ReadCookie (trace (wrapper measurementId e)).
Proof.
  unfold wrapper. rewrite gtag_executor_run. unfold trace; simpl fst.
  intros H. apply in_app_or in H as [H|H].
  - unfold call_gtag in H. destruct (window_gtag e); simpl in H;
      try contradiction. now destruct H.
  - destruct (sync_throw _); simpl in H; [|contradiction].
    now destruct H.
Qed.

Lemma race_with_timer (now ms : N) (p : promise jsval) :
  exists t r, race p (timer now ms) = Some (t, r) /\ (t <= now + ms)%N /\
              (p = None -> t = (now + ms)%N /\ r = Normal (JStr [])).
Proof.
  unfold race, timer. destruct p as [[tp rp]|].
  - destruct (N.leb_spec tp (now + ms)).
    + exists tp, rp.
      split; [reflexivity|split; [assumption|discriminate]].
    + exists (now + ms)%N, (Normal (JStr [])).
      split; [reflexivity|split; [lia|discriminate]].
  - exists (now + ms)%N, (Normal (JStr [])).
    split; [reflexivity|split; [lia|now split]].
Qed.

Lemma resolver_follows_three_steps :
  follows_three_steps (fun m t => run_async (body m t)) body wrapper
                      accessor message.
Proof.
  intros measurementId timeout w now cookie outcome.
  split; [reflexivity|].
  split; [|split].
  - intros H. unfold outcome, run_async.
    rewrite (body_unavailable _ timeout _ H).
    unfold cookie, trace, result.
    now destruct (accessor measurementId (w now)) as [t [v|x]].
  - intros H.
    destruct (body_available _ timeout _ H) as (live & Hl & Hb).
    destruct (gtag_executor_contract property wrapper_message
                measurementId (w now)) as (p & Hp & _ & NR & _).
    fold wrapper in Hp. rewrite Hl in Hp. inversion Hp; subst p.
    destruct (race_with_timer now (timer_delay timeout)
                (settlement now live)) as (t & r & Hr & _ & _).
    destruct r as [raced|x].
    2:{ exfalso. unfold race, timer in Hr.
        destruct (settlement now live) as [[tp rp]|] eqn:Es.
        - destruct (N.leb tp (now + timer_delay timeout)).
          + inversion Hr; subst. now apply (NR now t x).
          + inversion Hr.
        - inversion Hr. }
    exists live, t, raced.
    split; [exact Hl|]. split; [exact Hr|].
    assert (Ho : outcome
                 = (let (t2, b) :=
                      resume message
                        (v <- accessor measurementId ;; ret (JStr v))
                        (Normal raced) (w t) in
                    ((trace (wrapper measurementId (w now))
                        ++ [SetTimeout (timer_delay timeout)]) ++ t2,
                     Some (t, b)))).
    { unfold outcome, run_async. rewrite Hb, Hr. reflexivity. }
    split; intros Ht.
    + rewrite Ho, (resume_truthy _ _ _ Ht). unfold settled, trace; simpl.
      split; [reflexivity|].
      rewrite app_nil_r. intros Hin. apply in_app_or in Hin as [Hin|Hin].
      * now apply (wrapper_trace_no_cookie measurementId (w now)).
      * destruct Hin as [Hin|[]]. discriminate.
    + rewrite Ho, (resume_falsy _ _ _ Ht), fallback_run.
      unfold settled, trace; simpl. split; [reflexivity|].
      apply in_or_app. right.
      change (fst (accessor measurementId (w t)))
        with (trace (accessor measurementId (w t))).
      rewrite accessor_trace. now left.
  - intros H.
    destruct (body_available _ timeout _ H) as (live & Hl & Hb).
    exists live. do 3 eexists.
    split; [exact Hl|]. split; [exact Hb|].
    split; [reflexivity|].
    split; [|split].
    + intros v e Hv. now apply resume_truthy.
    + intros v e Hv. rewrite (resume_falsy _ _ _ Hv). apply fallback_run.
    + intros x e. rewrite resume_Throw, fallback_run. reflexivity.
Qed.

(** Whatever the live API does, the promise of a resolver settles, and no
    later than the timer. *)
Lemma resolver_settles (measurementId : jsstring) (timeout : option Z)
    (w : world) (now : N) :
  exists t r,
    settled (run_async (body measurementId timeout) w now) = Some (t, r) /\
    (now <= t <= now + timer_delay timeout)%N.
Proof.
  destruct (live_api_available measurementId (w now)) eqn:H.
  - destruct (body_available _ timeout _ H) as (live & Hl & Hb).
    destruct (race_with_timer now (timer_delay timeout)
                (settlement now live)) as (t & r & Hr & Hle & _).
    unfold run_async. rewrite Hb, Hr.
    destruct (resume _ _ r (w t)) as [t2 b]. exists t, b.
    split; [reflexivity|]. split; [|exact Hle].
    unfold race, timer, settlement in Hr.
    destruct (after_executor live);
      [destruct (callbacks live) as [|[gap v] rest]|..];
      try destruct (N.leb_spec (now + gap) (now + timer_delay timeout));
      try destruct (N.leb_spec now (now + timer_delay timeout));
      inversion Hr; lia.
  - unfold run_async. rewrite (body_unavailable _ timeout _ H).
    destruct (result (accessor measurementId (w now))) as [v|x];
      simpl; do 2 eexists; (split; [reflexivity|lia]).
Qed.

(** The live API is there and its callback is never invoked: the timer
    wins the race. *)
Lemma resolver_callback_never_fires (measurementId : jsstring)
    (timeout : option Z) (w : world) (now : N)
    (f : jsstring -> jsstring -> gtag_run) :
  window_gtag (w now) = Callable f ->
  window_google_tag_manager (w now) = true ->
  measurementId <> [] ->
  sync_values (f measurementId property) = [] ->
  later_values (f measurementId property) = [] ->
  exists t,
    (now <= t <= now + timer_delay timeout)%N /\
    settled (run_async (body measurementId timeout) w now)
    = Some (t, cmap JStr (result (accessor measurementId (w t)))) /\
    (sync_throw (f measurementId property) = None ->
     t = (now + timer_delay timeout)%N).
Proof.
  intros Hg Hm Hid Hs Hl.
  assert (H : live_api_available measurementId (w now) = true).
  { apply live_api_available_iff. rewrite Hg. now repeat split. }
  destruct (body_available _ timeout _ H) as (live & Hlive & Hb).
  unfold wrapper in Hlive. rewrite gtag_executor_run in Hlive.
  unfold result in Hlive; simpl in Hlive.
  unfold call_gtag in Hlive. rewrite Hg in Hlive. simpl in Hlive.
  rewrite Hs, Hl in Hlive. simpl in Hlive.
  inversion Hlive as [El]. clear Hlive.
  assert (Hr : exists t,
             race (settlement now live) (timer now (timer_delay timeout))
             = Some (t, Normal (JStr [])) /\
             (now <= t <= now + timer_delay timeout)%N /\
             (sync_throw (f measurementId property) = None ->
              t = (now + timer_delay timeout)%N)).
  { subst live. unfold settlement, race, timer; simpl.
    destruct (sync_throw (f measurementId property)) as [err|]; simpl.
    - exists now.
      destruct (N.leb_spec now (now + timer_delay timeout)); [|lia].
      split; [reflexivity|split; [lia|discriminate]].
    - exists (now + timer_delay timeout)%N.
      split; [reflexivity|split; [lia|reflexivity]]. }
  destruct Hr as (t & Hr & Hle & Ht).
  exists t. split; [exact Hle|]. split; [|exact Ht].
  unfold run_async. rewrite Hb. cbv beta iota. rewrite Hr.
  rewrite (resume_falsy _ (JStr []) _ eq_refl), fallback_run.
  reflexivity.
Qed.
(** A resolver is never fulfilled with a falsy value other than the empty
    string. *)
Lemma resolver_value_shape (measurementId : jsstring) (timeout : option Z)
    (w : world) (now t : N) (v : jsval) :
  settled (run_async (body measurementId timeout) w now)
  = Some (t, Normal v) ->
  truthy v = false -> v = JStr [].
Proof.
  intros Hset Hv.
  assert (Hc : forall e, cmap JStr (result (accessor measurementId e))
                         = Normal v -> v = JStr []).
  { intros e He. destruct (result (accessor measurementId e)) as [s|x];
      [|discriminate].
    inversion He; subst v. now destruct s. }
  destruct (resolver_follows_three_steps measurementId timeout w now)
    as (_ & H1 & H2 & _).
  destruct (live_api_available measurementId (w now)) eqn:Ha.
  - destruct (H2 eq_refl) as (live & t' & raced & _ & _ & Ht & Hf).
    destruct (truthy raced) eqn:Er.
    + destruct (Ht eq_refl) as [E _]. rewrite E in Hset.
      inversion Hset; subst. congruence.
    + destruct (Hf eq_refl) as [E _]. rewrite E in Hset.
      injection Hset as E1 E2. exact (Hc _ E2).
  - rewrite (H1 eq_refl) in Hset. unfold settled in Hset; simpl in Hset.
    injection Hset as E1 E2. exact (Hc _ E2).
Qed.
End Resolver.

Lemma getClientId_body_shape :
  getClientId_body
  = resolver_body (str "client_id") (str "Error getting client_id from gtag:")
      (str "Native gtag client_id failed, falling back to cookie:")
      (fun _ => getClientIdFromCookie).
Proof. reflexivity. Qed.

Lemma getSessionId_body_shape :
  getSessionId_body
  = resolver_body (str "session_id")
      (str "Error getting session_id from gtag:")
      (str "Native gtag session_id failed, falling back to cookie:")
      getSessionIdFromCookie.
Proof. reflexivity. Qed.

Lemma getClientIdFromCookie_trace (e : env) :
  trace (getClientIdFromCookie e) = [ReadCookie].
Proof. now rewrite getClientIdFromCookie_run. Qed.

Lemma getSessionIdFromCookie_trace (measurementId : jsstring) (e : env) :
  trace (getSessionIdFromCookie measurementId e) = [ReadCookie].
Proof. now rewrite getSessionIdFromCookie_run. Qed.

(** C1: for every measurement id, timeout, world and starting instant, each
    of [getClientId] and [getSessionId] is its body run as an async function
    and follows the three steps.  (1) When the live API is unavailable, it
    settles at once with the outcome of its cookie accessor, having done
    nothing but read the cookie.  (2) When it is available, the wrapper is
    raced against the timer; the race yields a value, and when that value is
    truthy the resolver is fulfilled with it and the cookie is never read.
    (3) When that value is empty, the resolver settles with the outcome of
    its cookie accessor, read when the race settles, be it the empty string.
    The code after the [await] treats a rejected race the same way, after a
    warning. *)
Theorem resolvers_follow_three_steps :
  follows_three_steps
    getClientId getClientId_body getClientIdFromGtag
    (fun _ => getClientIdFromCookie)
    (str "Native gtag client_id failed, falling back to cookie:") /\
  follows_three_steps
    getSessionId getSessionId_body getSessionIdFromGtag
    getSessionIdFromCookie
    (str "Native gtag session_id failed, falling back to cookie:").
Proof.
  split.
  - exact (resolver_follows_three_steps
             (str "client_id") (str "Error getting client_id from gtag:")
             (str "Native gtag client_id failed, falling back to cookie:")
             (fun _ => getClientIdFromCookie)
             (fun _ => getClientIdFromCookie_trace)).
  - exact (resolver_follows_three_steps
             (str "session_id") (str "Error getting session_id from gtag:")
             (str "Native gtag session_id failed, falling back to cookie:")
             getSessionIdFromCookie getSessionIdFromCookie_trace).
Qed.

(** The cookie accessors throw nothing but [URIError]. *)
Lemma getClientIdFromCookie_Throw (e : env) (x : exn) :
  result (getClientIdFromCookie e) = Throw x -> x = URIError.
Proof.
  rewrite getClientIdFromCookie_run. unfold result at 1; simpl snd.
  destruct (result (readCookie (str "_ga") e)) eqn:E; [discriminate|].
  simpl. intros H. injection H as <-.
  now destruct (readCookie_Throw _ _ _ E).
Qed.

Lemma getSessionIdFromCookie_Throw (measurementId : jsstring) (e : env)
    (x : exn) :
  result (getSessionIdFromCookie measurementId e) = Throw x -> x = URIError.
Proof.
  rewrite getSessionIdFromCookie_run. unfold result at 1; simpl snd.
  destruct (result (readCookie (session_cookie_name measurementId) e)) eqn:E;
    [discriminate|].
  simpl. intros H. injection H as <-.
  now destruct (readCookie_Throw _ _ _ E).
Qed.

(** C2: for every measurement id, timeout, world and starting instant, if
    [window.gtag] is a function, [window.google_tag_manager] is defined and
    the id is non-empty, and the call to [gtag] never invokes its callback,
    then the promise of [getClientId] settles, at an instant [t] no later
    than the timer, with the outcome of the cookie accessor read at [t]:
    it is fulfilled with the accessor's value when the accessor returns,
    and rejected with [URIError] when the accessor throws; and when the
    call does not throw either, [t] is exactly the instant at which the
    timer fires. *)
Theorem getClientId_settles_when_callback_never_fires
    (measurementId : jsstring) (timeout : option Z) (w : world) (now : N)
    (f : jsstring -> jsstring -> gtag_run) :
  window_gtag (w now) = Callable f ->
  window_google_tag_manager (w now) = true ->
  measurementId <> [] ->
  sync_values (f measurementId (str "client_id")) = [] ->
  later_values (f measurementId (str "client_id")) = [] ->
  exists t,
    (now <= t <= now + timer_delay timeout)%N /\
    settled (getClientId measurementId timeout w now)
    = Some (t, cmap JStr (result (getClientIdFromCookie (w t)))) /\
    (sync_throw (f measurementId (str "client_id")) = None ->
     t = (now + timer_delay timeout)%N) /\
    (forall v,
       result (getClientIdFromCookie (w t)) = Normal v ->
       settled (getClientId measurementId timeout w now)
       = Some (t, Normal (JStr v))) /\
    (forall x,
       result (getClientIdFromCookie (w t)) = Throw x ->
       x = URIError /\
       settled (getClientId measurementId timeout w now)
       = Some (t, Throw URIError)).
Proof.
  intros Hg Hm Hid Hs Hl.
  destruct (resolver_callback_never_fires
              (str "client_id") (str "Error getting client_id from gtag:")
              (str "Native gtag client_id failed, falling back to cookie:")
              (fun _ => getClientIdFromCookie) measurementId timeout w now f
              Hg Hm Hid Hs Hl) as (t & Hle & Hset & Ht).
  change (settled (getClientId measurementId timeout w now)
          = Some (t, cmap JStr (result (getClientIdFromCookie (w t)))))
    in Hset.
  exists t. split; [exact Hle|]. split; [exact Hset|]. split; [exact Ht|].
  split.
  - intros v Hv. rewrite Hset, Hv. reflexivity.
  - intros x Hx. pose proof (getClientIdFromCookie_Throw _ _ Hx) as ->.
    split; [reflexivity|]. rewrite Hset, Hx. reflexivity.
Qed.

(** C2, at a concrete input: the live API is silent, the timeout is 50 and
    the cookie holds a client id. *)
Lemma getClientId_timeout_50_witness :
  exists t,
    (0 <= t <= 0 + timer_delay (Some 50%Z))%N /\
    settled (getClientId (str "G-ABCDEF1234") (Some 50%Z)
               (still (page (str "_ga=GA1.2.1234567890.1111111111")
                            silent_gtag)) 0)
    = Some (t, cmap JStr
                 (result (getClientIdFromCookie
                            (still (page (str "_ga=GA1.2.1234567890.1111111111")
                                         silent_gtag) t)))) /\
    (sync_throw {| sync_values := []; sync_throw := None;
                   later_values := [] |} = None ->
     t = (0 + timer_delay (Some 50%Z))%N) /\
    (forall v,
       result (getClientIdFromCookie
                 (still (page (str "_ga=GA1.2.1234567890.1111111111")
                              silent_gtag) t)) = Normal v ->
       settled (getClientId (str "G-ABCDEF1234") (Some 50%Z)
                  (still (page (str "_ga=GA1.2.1234567890.1111111111")
                               silent_gtag)) 0)
       = Some (t, Normal (JStr v))) /\
    (forall x,
       result (getClientIdFromCookie
                 (still (page (str "_ga=GA1.2.1234567890.1111111111")
                              silent_gtag) t)) = Throw x ->
       x = URIError /\
       settled (getClientId (str "G-ABCDEF1234") (Some 50%Z)
                  (still (page (str "_ga=GA1.2.1234567890.1111111111")
                               silent_gtag)) 0)
       = Some (t, Throw URIError)).
Proof.
  apply (getClientId_settles_when_callback_never_fires
           (str "G-ABCDEF1234") (Some 50%Z)
           (still (page (str "_ga=GA1.2.1234567890.1111111111") silent_gtag))
           0%N
           (fun _ _ => {| sync_values := []; sync_throw := None;
                          later_values := [] |}));
    [reflexivity|reflexivity|discriminate|reflexivity|reflexivity].
Defined.

(** C2, where the fallback does not give a value: [window.gtag] is a
    function that never invokes its callback, [window.google_tag_manager]
    is defined, the measurement id is non-empty and the timeout is 50; the
    cookie string is [_ga=%], whose value is not well-formed
    percent-encoding.  The timer fires at 50, the cookie accessor throws,
    and the promise of [getClientId] is rejected with [URIError]: it is
    fulfilled with no value at all. *)
Lemma getClientId_rejects_when_the_cookie_is_malformed :
  let w := still (page (str "_ga=%") silent_gtag) in
  let f := fun _ _ : jsstring =>
             {| sync_values := []; sync_throw := None; later_values := [] |} in
  window_gtag (w 0%N) = Callable f /\
  window_google_tag_manager (w 0%N) = true /\
  str "G-ABCDEF1234" <> [] /\
  sync_values (f (str "G-ABCDEF1234") (str "client_id")) = [] /\
  later_values (f (str "G-ABCDEF1234") (str "client_id")) = [] /\
  result (getClientIdFromCookie (w 50%N)) = Throw URIError /\
  settled (getClientId (str "G-ABCDEF1234") (Some 50%Z) w 0)
  = Some (50%N, Throw URIError) /\
  (forall v, settled (getClientId (str "G-ABCDEF1234") (Some 50%Z) w 0)
             <> Some (50%N, Normal v)).
Proof.
  cbv zeta.
  split; [reflexivity|]. split; [reflexivity|]. split; [discriminate|].
  split; [reflexivity|]. split; [reflexivity|]. split; [reflexivity|].
  assert (E : settled (getClientId (str "G-ABCDEF1234") (Some 50%Z)
                         (still (page (str "_ga=%") silent_gtag)) 0)
              = Some (50%N, Throw URIError)) by reflexivity.
  split; [exact E|]. intros v. rewrite E. discriminate.
Qed.

Example getClientId_timeout_50 :
  settled (getClientId (str "G-ABCDEF1234") (Some 50%Z)
             (still (page (str "_ga=GA1.2.1234567890.1111111111")
                          silent_gtag)) 0)
  = Some (50%N, Normal (JStr (str "1234567890.1111111111"))).
Proof. reflexivity. Qed.

(** Without the timer the wrapper alone would never settle there. *)
Example silent_wrapper_stays_pending :
  option_map (settlement 0)
    (match result (getClientIdFromGtag (str "G-ABCDEF1234")
                     (page [] silent_gtag)) with
     | Normal p => Some p
     | Throw _ => None
     end)
  = Some None.
Proof. reflexivity. Qed.

Example getClientId_live_value :
  getClientId (str "G-ABCDEF1234") None
    (still (page (str "_ga=GA1.2.3.4") (answering_gtag 10 (JStr (str "77.88")))))
    5
  = ([CallGtag (str "G-ABCDEF1234") (str "client_id"); SetTimeout 2000],
     Some (15%N, Normal (JStr (str "77.88")))).
Proof. reflexivity. Qed.

Example getClientId_live_value_too_late :
  getClientId (str "G-ABCDEF1234") (Some 50%Z)
    (still (page (str "_ga=GA1.2.3.4") (answering_gtag 60 (JStr (str "77.88")))))
    5
  = ([CallGtag (str "G-ABCDEF1234") (str "client_id"); SetTimeout 50;
      ReadCookie],
     Some (55%N, Normal (JStr (str "3.4")))).
Proof. reflexivity. Qed.

Example getSessionId_live_api_unavailable :
  getSessionId (str "G-ABCDEF1234") None
    (still (cookie_env (str "_ga_ABCDEF1234=GS1.1.9988.5"))) 5
  = ([ReadCookie], Some (5%N, Normal (JStr (str "9988")))).
Proof. reflexivity. Qed.

(** ** The combined accessor *)

Lemma annotate_run (measurementId : jsstring) (id : jsval) (e : env) :
  annotate measurementId id e = ([], Normal (post_hoc_tag measurementId e id)).
Proof.
  unfold annotate, post_hoc_tag, live_api_available.
  destruct (truthy id); [|reflexivity].
  rewrite (run_bind_Normal _ _ _ _ _ _ _ (isGtagAvailable_run _ _)).
  rewrite isGtagAvailable_run. reflexivity.
Qed.

Lemma getGA4Identifiers_resume_run (measurementId : jsstring)
    (ids : jsval * jsval) (e : env) :
  getGA4Identifiers_resume measurementId ids e =
  ([], Normal {| clientId := fst ids; sessionId := snd ids;
                 source :=
                   {| source_clientId :=
                        post_hoc_tag measurementId e (fst ids);
                      source_sessionId :=
                        post_hoc_tag measurementId e (snd ids) |} |}).
Proof.
  unfold getGA4Identifiers_resume.
  rewrite (run_bind_Normal _ _ _ _ _ _ _ (annotate_run _ _ _)).
  rewrite (run_bind_Normal _ _ _ _ _ _ _ (annotate_run _ _ _)).
  reflexivity.
Qed.

Lemma getClientId_settles (measurementId : jsstring) (timeout : option Z)
    (w : world) (now : N) :
  exists t r,
    settled (getClientId measurementId timeout w now) = Some (t, r) /\
    (now <= t <= now + timer_delay timeout)%N.
Proof.
  exact (resolver_settles
           (str "client_id") (str "Error getting client_id from gtag:")
           (str "Native gtag client_id failed, falling back to cookie:")
           (fun _ => getClientIdFromCookie) measurementId timeout w now).
Qed.

Lemma getSessionId_settles (measurementId : jsstring) (timeout : option Z)
    (w : world) (now : N) :
  exists t r,
    settled (getSessionId measurementId timeout w now) = Some (t, r) /\
    (now <= t <= now + timer_delay timeout)%N.
Proof.
  exact (resolver_settles
           (str "session_id") (str "Error getting session_id from gtag:")
           (str "Native gtag session_id failed, falling back to cookie:")
           getSessionIdFromCookie measurementId timeout w now).
Qed.

Lemma getClientId_value_shape (measurementId : jsstring)
    (timeout : option Z) (w : world) (now t : N) (v : jsval) :
  settled (getClientId measurementId timeout w now) = Some (t, Normal v) ->
  truthy v = false -> v = JStr [].
Proof.
  exact (resolver_value_shape
           (str "client_id") (str "Error getting client_id from gtag:")
           (str "Native gtag client_id failed, falling back to cookie:")
           (fun _ => getClientIdFromCookie)
           (fun _ => getClientIdFromCookie_trace)
           measurementId timeout w now t v).
Qed.

Lemma getSessionId_value_shape (measurementId : jsstring)
    (timeout : option Z) (w : world) (now t : N) (v : jsval) :
  settled (getSessionId measurementId timeout w now) = Some (t, Normal v) ->
  truthy v = false -> v = JStr [].
Proof.
  exact (resolver_value_shape
           (str "session_id") (str "Error getting session_id from gtag:")
           (str "Native gtag session_id failed, falling back to cookie:")
           getSessionIdFromCookie getSessionIdFromCookie_trace
           measurementId timeout w now t v).
Qed.

(** C4, counterexample: the live API answers, so both values are non-empty
    and the live API is available; the tag the source writes is [gtag-api],
    not the [live-api] of the claim.  And with no live API and the cookie
    [_ga=%], the promise is rejected and carries no tag at all. *)
Lemma getGA4Identifiers_tag_is_not_live_api :
  getGA4Identifiers (str "G-ABCDEF1234") None
    (still (page [] (answering_gtag 10 (JStr (str "77.88"))))) 0
  = Some (10%N,
          Normal {| clientId := JStr (str "77.88");
                    sessionId := JStr (str "77.88");
                    source := {| source_clientId := str "gtag-api";
                                 source_sessionId := str "gtag-api" |} |}) /\
  live_api_available (str "G-ABCDEF1234")
    (page [] (answering_gtag 10 (JStr (str "77.88")))) = true /\
  tag_as_specified true (JStr (str "77.88")) = str "live-api" /\
  str "gtag-api" <> str "live-api" /\
  getGA4Identifiers (str "G-ABCDEF1234") None
    (still (cookie_env (str "_ga=%"))) 0
  = Some (0%N, Throw URIError).
Proof. repeat split; try reflexivity. discriminate. Qed.

(** C4, amended: for every measurement id, timeout, world and starting
    instant, the promise of [getGA4Identifiers] settles.  When the two
    resolvers are fulfilled with [c] and [s], it is fulfilled, once both
    are, with [c], [s] and one source tag for each.  Whenever it is
    fulfilled, each tag is one of the three strings [gtag-api], [cookie] and
    [not-found], computed after the fact from the value and from the
    availability check at that instant: a non-empty value is tagged
    [gtag-api] when the live API is available and [cookie] when it is not,
    and an empty value, which is the empty string, is tagged [not-found]. *)
Theorem getGA4Identifiers_source_tags
    (measurementId : jsstring) (timeout : option Z) (w : world) (now : N) :
  (exists t r, getGA4Identifiers measurementId timeout w now = Some (t, r)) /\
  (forall tc ts c s,
   settled (getClientId measurementId timeout w now) = Some (tc, Normal c) ->
   settled (getSessionId measurementId timeout w now) = Some (ts, Normal s) ->
   getGA4Identifiers measurementId timeout w now
   = Some (N.max tc ts,
           Normal {| clientId := c; sessionId := s;
                     source :=
                       {| source_clientId :=
                            post_hoc_tag measurementId (w (N.max tc ts)) c;
                          source_sessionId :=
                            post_hoc_tag measurementId (w (N.max tc ts)) s
                       |} |})) /\
  (forall t r,
   getGA4Identifiers measurementId timeout w now = Some (t, Normal r) ->
   let available := live_api_available measurementId (w t) in
   let rule (id : jsval) (tag : jsstring) :=
     (truthy id = true -> available = true -> tag = str "gtag-api") /\
     (truthy id = true -> available = false -> tag = str "cookie") /\
     (truthy id = false -> id = JStr [] /\ tag = str "not-found") in
   rule (clientId r) (source_clientId (source r)) /\
   rule (sessionId r) (source_sessionId (source r))).
Proof.
  split; [|split].
  - destruct (getClientId_settles measurementId timeout w now)
      as (tc & rc & Hc & _).
    destruct (getSessionId_settles measurementId timeout w now)
      as (ts & rs & Hs & _).
    unfold getGA4Identifiers. rewrite Hc, Hs.
    destruct rc as [c|x], rs as [s|y]; simpl; try (now eauto).
    destruct (N.leb tc ts); eauto.
  - intros tc ts c s Hc Hs. unfold getGA4Identifiers.
    rewrite Hc, Hs. simpl all2. cbv beta iota.
    rewrite getGA4Identifiers_resume_run. reflexivity.
  - intros t r H. unfold getGA4Identifiers in H.
    destruct (settled (getClientId measurementId timeout w now))
      as [[tc [c|x]]|] eqn:Hc;
      destruct (settled (getSessionId measurementId timeout w now))
        as [[ts [s|y]]|] eqn:Hs;
      simpl in H; try discriminate;
      try (destruct (N.leb tc ts); discriminate).
    rewrite getGA4Identifiers_resume_run in H. unfold result in H.
    simpl fst in H; simpl snd in H.
    injection H as Et Er. subst t r. cbv zeta. simpl clientId.
    simpl sessionId. simpl source. simpl source_clientId.
    simpl source_sessionId.
    pose proof (getClientId_value_shape _ _ _ _ _ _ Hc) as Sc.
    pose proof (getSessionId_value_shape _ _ _ _ _ _ Hs) as Ss.
    unfold post_hoc_tag.
    split.
    + destruct (truthy c), (live_api_available measurementId
                              (w (N.max tc ts)));
        repeat split; try discriminate; try reflexivity; auto.
    + destruct (truthy s), (live_api_available measurementId
                              (w (N.max tc ts)));
        repeat split; try discriminate; try reflexivity; auto.
Qed.

Example getGA4Identifiers_cookie_values :
  getGA4Identifiers (str "G-ABCDEF1234") None
    (still (cookie_env (str "_ga=GA1.2.3.4"))) 0
  = Some (0%N,
          Normal {| clientId := JStr (str "3.4");
                    sessionId := JStr [];
                    source := {| source_clientId := str "cookie";
                                 source_sessionId := str "not-found" |} |}).
Proof. reflexivity. Qed.

(** The tag records the availability check, not the path taken: a value
    that came from the cookie after the timer fired is tagged [gtag-api]
    when the live API counts as available. *)
Example getGA4Identifiers_tag_is_post_hoc :
  getGA4Identifiers (str "G-ABCDEF1234") (Some 50%Z)
    (still (page (str "_ga=GA1.2.3.4") silent_gtag)) 0
  = Some (50%N,
          Normal {| clientId := JStr (str "3.4");
                    sessionId := JStr [];
                    source := {| source_clientId := str "gtag-api";
                                 source_sessionId := str "not-found" |} |}).
Proof. reflexivity. Qed.

(** ** The synchronous accessor *)

Lemma getGA4IdentifiersSync_run (measurementId : jsstring) (e : env) :
  getGA4IdentifiersSync measurementId e =
  match result (getClientIdFromCookie e),
        result (getSessionIdFromCookie measurementId e) with
  | Normal c, Normal s =>
      ([ReadCookie; ReadCookie; ReadCookie; ReadCookie],
       Normal {| clientId := JStr c; sessionId := JStr s;
                 source := {| source_clientId := cookie_or_not_found c;
                              source_sessionId := cookie_or_not_found s |} |})
  | Normal _, Throw x => ([ReadCookie; ReadCookie], Throw x)
  | Throw x, _ => ([ReadCookie], Throw x)
  end.
Proof.
  unfold getGA4IdentifiersSync.
  pose proof (getClientIdFromCookie_trace e) as Tc.
  pose proof (getSessionIdFromCookie_trace measurementId e) as Ts.
  unfold trace, result in *.
  destruct (getClientIdFromCookie e) as [tc [c|x]] eqn:Ec;
    simpl in Tc; subst tc; simpl snd.
  2:{ now rewrite (run_bind_Throw _ _ _ _ _ _ _ Ec). }
  rewrite (run_bind_Normal _ _ _ _ _ _ _ Ec).
  destruct (getSessionIdFromCookie measurementId e) as [ts [s|y]] eqn:Es;
    simpl in Ts; subst ts; simpl snd.
  2:{ now rewrite (run_bind_Throw _ _ _ _ _ _ _ Es). }
  rewrite (run_bind_Normal _ _ _ _ _ _ _ Es).
  rewrite (run_bind_Normal _ _ _ _ _ _ _ Ec).
  rewrite (run_bind_Normal _ _ _ _ _ _ _ Es).
  reflexivity.
Qed.

Lemma cookie_or_not_found_cases (v : jsstring) :
  (v <> [] <-> cookie_or_not_found v = str "cookie") /\
  (v = [] <-> cookie_or_not_found v = str "not-found").
Proof.
  destruct v; simpl; split; split; intros H;
    try reflexivity; try congruence; try discriminate.
Qed.


Example getGA4IdentifiersSync_ignores_live_api :
  getGA4IdentifiersSync (str "G-ABCDEF1234")
    (page (str "_ga=GA1.2.3.4; _ga_ABCDEF1234=GS1.1.9988.5")
          (answering_gtag 0 (JStr (str "77.88"))))
  = ([ReadCookie; ReadCookie; ReadCookie; ReadCookie],
     Normal {| clientId := JStr (str "3.4");
               sessionId := JStr (str "9988");
               source := {| source_clientId := str "cookie";
                            source_sessionId := str "cookie" |} |}).
Proof. reflexivity. Qed.

(** C10: for every measurement id and every cookie string, the cookie is
    read four times, twice for the values and twice for the tags, and any
    result the synchronous accessor returns is consistent: the client id is
    non-empty exactly when its tag is [cookie] and empty exactly when its
    tag is [not-found], and likewise the session id and its tag. *)
Theorem getGA4IdentifiersSync_consistent
    (measurementId : jsstring) (e : env) (r : identifiers) :
  result (getGA4IdentifiersSync measurementId e) = Normal r ->
  trace (getGA4IdentifiersSync measurementId e)
  = [ReadCookie; ReadCookie; ReadCookie; ReadCookie] /\
  (clientId r <> JStr [] <-> source_clientId (source r) = str "cookie") /\
  (clientId r = JStr [] <-> source_clientId (source r) = str "not-found") /\
  (sessionId r <> JStr [] <-> source_sessionId (source r) = str "cookie") /\
  (sessionId r = JStr [] <-> source_sessionId (source r) = str "not-found").
Proof.
  rewrite getGA4IdentifiersSync_run.
  destruct (result (getClientIdFromCookie e)) as [c|x];
    [|discriminate].
  destruct (result (getSessionIdFromCookie measurementId e)) as [s|y];
    [|discriminate].
  unfold result, trace; simpl fst; simpl snd.
  intros H. injection H as <-. simpl.
  split; [reflexivity|].
  destruct (cookie_or_not_found_cases c) as [C1 C2].
  destruct (cookie_or_not_found_cases s) as [S1 S2].
  assert (J : forall v : jsstring, JStr v = JStr [] <-> v = [])
    by (intros v; split; [intros E; now injection E|now intros ->]).
  repeat split; intros H;
    try (apply C1; intros ->; now apply H);
    try (apply S1; intros ->; now apply H);
    try (intros E; apply J in E; revert E; now apply C1);
    try (intros E; apply J in E; revert E; now apply S1);
    try (apply C2; now apply J);
    try (apply S2; now apply J);
    try (apply J; now apply C2);
    try (apply J; now apply S2).
Qed.

(** C10, at a concrete input: a client id is present, the session cookie is
    absent. *)
Lemma getGA4IdentifiersSync_consistent_witness :
  trace (getGA4IdentifiersSync (str "G-ABCDEF1234")
           (cookie_env (str "_ga=GA1.2.3.4")))
  = [ReadCookie; ReadCookie; ReadCookie; ReadCookie] /\
  (JStr (str "3.4") <> JStr [] <-> str "cookie" = str "cookie") /\
  (JStr (str "3.4") = JStr [] <-> str "cookie" = str "not-found") /\
  (JStr [] <> JStr [] <-> str "not-found" = str "cookie") /\
  (JStr [] = JStr [] <-> str "not-found" = str "not-found").
Proof.
  exact (getGA4IdentifiersSync_consistent
           (str "G-ABCDEF1234") (cookie_env (str "_ga=GA1.2.3.4"))
           {| clientId := JStr (str "3.4"); sessionId := JStr [];
              source := {| source_clientId := str "cookie";
                           source_sessionId := str "not-found" |} |}
           eq_refl).
Defined.

(** ** Further properties *)

(** X2: for every measurement id, timeout, world and starting instant, the
    promises of [getClientId] and of [getSessionId] settle, whatever the live
    API does, and no later than the timer set by the resolver. *)
Theorem resolvers_always_settle
    (measurementId : jsstring) (timeout : option Z) (w : world) (now : N) :
  (exists t r,
     settled (getClientId measurementId timeout w now) = Some (t, r) /\
     (now <= t <= now + timer_delay timeout)%N) /\
  (exists t r,
     settled (getSessionId measurementId timeout w now) = Some (t, r) /\
     (now <= t <= now + timer_delay timeout)%N).
Proof.
  split; [apply getClientId_settles|apply getSessionId_settles].
Qed.

(** X3: for every cookie name and cookie string, the pattern of [readCookie]
    matches exactly when the string holds an entry of the name, at its start
    or after a [;], and the text it captures is the value of such an entry:
    non-empty, free of [;], and running to the next [;] or to the end. *)
Theorem match_cookie_finds_entries (name cookie : jsstring) :
  (RegExp.match_cookie name cookie = None <-> cookie_absent name cookie) /\
  (forall v, RegExp.match_cookie name cookie = Some v ->
             has_entry name cookie v).
Proof.
  split; [apply RegExpFacts.match_cookie_None|].
  intros v. apply RegExpFacts.match_cookie_sound.
Qed.

(** ** Reading a cookie jar *)

Module CookieJarFacts.
Import RegExp.

Lemma star_head R (p : N -> bool) (k : cont R) (s : jsstring) :
  match s with [] => True | c :: _ => p c = false end ->
  star p k s = k s.
Proof. destruct s as [|c s]; simpl; [easy|]. now intros ->. Qed.

Lemma span_stop (p : N -> bool) (v tl : jsstring) :
  forallb p v = true ->
  match tl with [] => True | c :: _ => p c = false end ->
  span p (v ++ tl) = v.
Proof.
  intros Hv Htl. induction v as [|c v IH]; simpl in *.
  - destruct tl as [|c tl]; simpl; [reflexivity|now rewrite Htl].
  - apply andb_true_iff in Hv as [Hc Hv]. now rewrite Hc, IH.
Qed.

Lemma token_char_facts (c : N) :
  is_token_char c = true ->
  c <> 59%N /\ c <> 61%N /\ is_space c = false /\ not_semicolon c = true.
Proof.
  unfold is_token_char, not_semicolon. intros H.
  apply andb_true_iff in H as [H H3]. apply andb_true_iff in H as [H1 H2].
  apply negb_true_iff in H1, H2, H3.
  repeat split; try (now apply N.eqb_neq); [assumption|now rewrite H1].
Qed.

Lemma lit_mismatch R (a c : N) (l s : jsstring) (k : cont R) :
  a <> c -> lit (a :: l) k (c :: s) = None.
Proof.
  intros H. unfold lit. cbn [JsString.strip_prefix].
  apply N.eqb_neq in H. now rewrite H.
Qed.

(** Where a name can end inside [k=...]: at the [=], or before it. *)
Lemma strip_prefix_name (name k x r : jsstring) :
  forallb is_token_char name = true ->
  JsString.strip_prefix name (k ++ 61%N :: x) = Some r ->
  (k = name /\ r = 61%N :: x) \/
  (exists c k', k = name ++ c :: k' /\ r = c :: k' ++ 61%N :: x).
Proof.
  revert k. induction name as [|a name IH]; intros k Hn H; simpl in *.
  - injection H as <-. destruct k as [|c k]; [now left|].
    right. now exists c, k.
  - apply andb_true_iff in Hn as [Ha Hn].
    destruct (token_char_facts _ Ha) as (_ & A61 & _).
    destruct k as [|b k]; simpl in H.
    + apply N.eqb_neq in A61. now rewrite A61 in H.
    + destruct (N.eqb a b) eqn:E; [|discriminate].
      apply N.eqb_eq in E; subst b.
      destruct (IH k Hn H) as [[-> ->]|(c & k' & -> & ->)];
        [now left|right; now exists c, k'].
Qed.

Section OneName.
Variable name : jsstring.
Hypothesis name_ok : cookie_name_ok name.

(** One entry [k=v], followed by the end or by [;]: the pattern takes it
    exactly when [k] is the name and [v] is not empty. *)
Lemma after_anchor_entry (k v tl : jsstring) :
  cookie_name_ok k -> cookie_value_ok v ->
  match tl with [] => True | c :: _ => c = 59%N end ->
  after_anchor name (k ++ 61%N :: v ++ tl) =
  if list_eq_dec N.eq_dec k name then
    match v with [] => None | _ :: _ => Some v end
  else None.
Proof.
  intros [Kne Kt] [Vs Vh] Htl. destruct name_ok as [Nne Nt].
  assert (T59 : match tl with [] => True | c :: _ => is_space c = false end)
    by (destruct tl; [exact I|now subst]).
  assert (T59' : match tl with
                 | [] => True | c :: _ => not_semicolon c = false end)
    by (destruct tl; [exact I|now subst]).
  unfold after_anchor.
  rewrite star_head.
  2:{ destruct k as [|c k]; [congruence|]. simpl in Kt |- *.
      apply andb_true_iff in Kt as [Kc _].
      now destruct (token_char_facts _ Kc) as (_ & _ & S & _). }
  unfold lit at 1.
  destruct (JsString.strip_prefix name (k ++ 61%N :: v ++ tl)) as [r|] eqn:E.
  - destruct (strip_prefix_name _ _ _ _ Nt E) as [[-> ->]|(c & k' & -> & ->)].
    + destruct (list_eq_dec N.eq_dec name name) as [_|]; [|congruence].
      rewrite star_head by reflexivity.
      change (61%N :: v ++ tl) with ([61%N] ++ v ++ tl).
      rewrite RegExpFacts.lit_complete.
      rewrite star_head.
      2:{ destruct v as [|c v]; [exact T59|exact Vh]. }
      unfold capture_plus. rewrite (span_stop _ _ _ Vs T59').
      now destruct v.
    + destruct (list_eq_dec N.eq_dec (name ++ c :: k') name) as [E'|_].
      { exfalso. apply (f_equal (@List.length N)) in E'.
        rewrite length_app in E'. simpl in E'. lia. }
      rewrite forallb_app in Kt. apply andb_true_iff in Kt as [_ Kt].
      simpl in Kt. apply andb_true_iff in Kt as [Kc _].
      destruct (token_char_facts _ Kc) as (_ & C61 & CS & _).
      rewrite star_head by exact CS.
      apply lit_mismatch. congruence.
  - destruct (list_eq_dec N.eq_dec k name) as [->|_]; [|reflexivity].
    now rewrite JsStringFacts.strip_prefix_app in E.
Qed.

Lemma exec_false_skip (pre s : jsstring) :
  forallb not_semicolon pre = true ->
  exec false name (pre ++ s) = exec false name s.
Proof.
  induction pre as [|c pre IH]; intros H; simpl in *; [reflexivity|].
  apply andb_true_iff in H as [Hc H].
  unfold match_at, bol_or_semicolon. unfold not_semicolon in Hc.
  apply negb_true_iff in Hc. rewrite Hc. now apply IH.
Qed.

Lemma after_anchor_space (s : jsstring) :
  after_anchor name (32%N :: s) = after_anchor name s.
Proof.
  unfold after_anchor. simpl star at 1. change (is_space 32) with true.
  cbv iota.
  destruct (star is_space _ s) eqn:E; [reflexivity|].
  destruct name_ok as [Nne Nt].
  destruct name as [|a n]; [congruence|].
  simpl in Nt. apply andb_true_iff in Nt as [Na _].
  destruct (token_char_facts _ Na) as (_ & _ & S & _).
  apply lit_mismatch. intros ->. discriminate.
Qed.

Lemma pair_no_semicolon (k v : jsstring) :
  cookie_name_ok k -> cookie_value_ok v ->
  forallb not_semicolon (k ++ 61%N :: v) = true.
Proof.
  intros [_ Kt] [Vs _]. rewrite forallb_app. simpl. rewrite Vs.
  rewrite andb_true_r.
  apply forallb_forall. intros c Hc.
  rewrite forallb_forall in Kt.
  now destruct (token_char_facts _ (Kt c Hc)) as (_ & _ & _ & S).
Qed.

Lemma cookie_string_tail (jar : list (jsstring * jsstring)) :
  match jar with
  | [] => True
  | (k, v) :: rest =>
      cookie_string jar =
      k ++ 61%N :: v ++
      match rest with [] => [] | _ :: _ => 59%N :: 32%N :: cookie_string rest end
  end.
Proof. destruct jar as [|[k v] rest]; [exact I|reflexivity]. Qed.

(** After a pair, the search goes on in the pairs behind it. *)
Lemma exec_false_rest (jar : list (jsstring * jsstring)) :
  Forall cookie_pair_ok jar ->
  exec false name
    (match jar with [] => [] | _ :: _ => 59%N :: 32%N :: cookie_string jar end)
  = jar_lookup name jar.
Proof.
  induction jar as [|[k v] rest IH]; intros H; [reflexivity|].
  inversion H as [|? ? [Hk Hv] Hrest]; subst. simpl in Hk, Hv.
  specialize (IH Hrest).
  set (tl := match rest with
             | [] => []
             | _ :: _ => 59%N :: 32%N :: cookie_string rest
             end) in *.
  assert (Htl : match tl with [] => True | c :: _ => c = 59%N end)
    by (unfold tl; now destruct rest).
  change (cookie_string ((k, v) :: rest)) with (k ++ 61%N :: v ++ tl).
  cbn [exec]. unfold match_at, bol_or_semicolon. cbv iota.
  rewrite N.eqb_refl, after_anchor_space.
  rewrite (after_anchor_entry k v tl Hk Hv Htl).
  assert (Hskip : exec false name (32%N :: k ++ 61%N :: v ++ tl)
                  = jar_lookup name rest).
  { change (32%N :: k ++ 61%N :: v ++ tl)
      with ([32%N] ++ k ++ 61%N :: v ++ tl).
    rewrite exec_false_skip by reflexivity.
    replace (k ++ 61%N :: v ++ tl) with ((k ++ 61%N :: v) ++ tl)
      by (now rewrite <- app_assoc).
    rewrite exec_false_skip by (now apply pair_no_semicolon).
    exact IH. }
  simpl jar_lookup.
  destruct (list_eq_dec N.eq_dec k name); [|exact Hskip].
  destruct v; [exact Hskip|reflexivity].
Qed.

Lemma match_cookie_jar (jar : list (jsstring * jsstring)) :
  Forall cookie_pair_ok jar ->
  match_cookie name (cookie_string jar) = jar_lookup name jar.
Proof.
  unfold match_cookie. destruct jar as [|[k v] rest]; intros H.
  - simpl. unfold match_at, bol_or_semicolon, after_anchor. simpl.
    destruct name_ok as [Nne _]. unfold lit.
    destruct name; [congruence|reflexivity].
  - inversion H as [|? ? [Hk Hv] Hrest]; subst. simpl in Hk, Hv.
    set (tl := match rest with
               | [] => []
               | _ :: _ => 59%N :: 32%N :: cookie_string rest
               end).
    assert (Htl : match tl with [] => True | c :: _ => c = 59%N end)
      by (unfold tl; now destruct rest).
    change (cookie_string ((k, v) :: rest)) with (k ++ 61%N :: v ++ tl).
    pose proof (after_anchor_entry k v tl Hk Hv Htl) as A.
    pose proof (exec_false_rest rest Hrest) as E. fold tl in E.
    assert (L : exec true name (k ++ 61%N :: v ++ tl)
                = match after_anchor name (k ++ 61%N :: v ++ tl) with
                  | Some r => Some r
                  | None => jar_lookup name rest
                  end).
    { pose proof (pair_no_semicolon k v Hk Hv) as P.
      destruct Hk as [Kne Kt].
      destruct k as [|c k0]; [congruence|].
      simpl in Kt. apply andb_true_iff in Kt as [Kc Kt0].
      destruct (token_char_facts _ Kc) as (C59 & _ & _ & CS).
      simpl in P. apply andb_true_iff in P as [_ P].
      cbn [app exec]. unfold match_at, bol_or_semicolon.
      destruct (after_anchor name (c :: k0 ++ 61%N :: v ++ tl));
        [reflexivity|].
      apply N.eqb_neq in C59. rewrite C59.
      replace (k0 ++ 61%N :: v ++ tl) with ((k0 ++ 61%N :: v) ++ tl)
        by (now rewrite <- app_assoc).
      rewrite exec_false_skip; [exact E|exact P]. }
    rewrite L, A. cbn [jar_lookup].
    destruct (list_eq_dec N.eq_dec k name); [|reflexivity].
    now destruct v.
Qed.

End OneName.
End CookieJarFacts.

Lemma in_join (sep c : N) (fields : list jsstring) :
  In c (JsString.join sep fields) ->
  c = sep \/ exists f, In f fields /\ In c f.
Proof.
  induction fields as [|f fs IH]; [intros []|].
  destruct fs as [|g fs].
  - simpl. intros H. right. exists f. split; [now left|exact H].
  - change (JsString.join sep (f :: g :: fs))
      with (f ++ sep :: JsString.join sep (g :: fs)).
    intros H. apply in_app_or in H as [H|[H|H]].
    + right. exists f. split; [now left|exact H].
    + now left.
    + destruct (IH H) as [E|(f' & Hf & Hc)]; [now left|].
      right. exists f'. split; [now right|exact Hc].
Qed.

Lemma join_no_percent (fields : list jsstring) :
  Forall (fun f => ~ In 46%N f /\ ~ In 37%N f) fields ->
  ~ In 37%N (JsString.join 46 fields).
Proof.
  intros H Hin. apply in_join in Hin as [E|(f & Hf & Hc)]; [discriminate|].
  rewrite Forall_forall in H. now apply (proj2 (H f Hf)).
Qed.

Lemma readCookie_of_jar (name : jsstring) (jar : list (jsstring * jsstring))
    (e : env) :
  cookie_name_ok name -> Forall cookie_pair_ok jar ->
  document_cookie e = cookie_string jar ->
  result (readCookie name e) =
  match jar_lookup name jar with
  | Some v => URI.decodeURIComponent v
  | None => Normal []
  end.
Proof.
  intros Hn Hj He. rewrite readCookie_run, He. unfold result; simpl snd.
  now rewrite (CookieJarFacts.match_cookie_jar name Hn jar Hj).
Qed.

(** X4: reading a cookie back from a jar.  When [document.cookie] is the
    string of a jar of well-formed pairs and the name is well formed,
    [readCookie] finds the first pair that has exactly that name and a
    non-empty value, whatever other names stand before it or contain it, and
    gives the outcome of percent-decoding its value: the value itself when it
    holds no [%]; it gives the empty string when there is no such pair. *)
Theorem readCookie_reads_first_pair
    (name : jsstring) (jar : list (jsstring * jsstring)) (e : env) :
  cookie_name_ok name -> Forall cookie_pair_ok jar ->
  document_cookie e = cookie_string jar ->
  result (readCookie name e) =
  match jar_lookup name jar with
  | Some v => URI.decodeURIComponent v
  | None => Normal []
  end /\
  (forall v, jar_lookup name jar = Some v -> ~ In 37%N v ->
             result (readCookie name e) = Normal v).
Proof.
  intros Hn Hj He. rewrite (readCookie_of_jar name jar e Hn Hj He).
  split; [reflexivity|]. intros v -> Hv.
  now apply URIFacts.decode_no_percent.
Qed.

Lemma ga_name_ok : cookie_name_ok (str "_ga").
Proof. split; [discriminate|reflexivity]. Qed.

(** X4, at a concrete input: the name [_ga] in a jar that also holds
    [x_ga], an empty [_ga], and a second [_ga]. *)
Lemma readCookie_reads_first_pair_witness :
  result (readCookie (str "_ga")
            (cookie_env
               (cookie_string [(str "x_ga", str "no"); (str "_ga", []);
                               (str "_ga", str "GA1.2.3.4");
                               (str "_ga", str "later")])))
  = match jar_lookup (str "_ga")
            [(str "x_ga", str "no"); (str "_ga", []);
             (str "_ga", str "GA1.2.3.4"); (str "_ga", str "later")] with
    | Some v => URI.decodeURIComponent v
    | None => Normal []
    end /\
  (forall v,
   jar_lookup (str "_ga")
     [(str "x_ga", str "no"); (str "_ga", []);
      (str "_ga", str "GA1.2.3.4"); (str "_ga", str "later")] = Some v ->
   ~ In 37%N v ->
   result (readCookie (str "_ga")
             (cookie_env
                (cookie_string [(str "x_ga", str "no"); (str "_ga", []);
                                (str "_ga", str "GA1.2.3.4");
                                (str "_ga", str "later")])))
   = Normal v).
Proof.
  apply (readCookie_reads_first_pair (str "_ga")
           [(str "x_ga", str "no"); (str "_ga", []);
            (str "_ga", str "GA1.2.3.4"); (str "_ga", str "later")]);
    [exact ga_name_ok| |reflexivity].
  repeat constructor; simpl; try discriminate; reflexivity.
Defined.

Example readCookie_jar_example :
  result (readCookie (str "_ga")
            (cookie_env
               (cookie_string [(str "x_ga", str "no"); (str "_ga", []);
                               (str "_ga", str "GA1.2.3.4");
                               (str "_ga", str "later")])))
  = Normal (str "GA1.2.3.4").
Proof. reflexivity. Qed.

(** X5: the client id comes back from the jar.  When [document.cookie] is
    the string of a jar of well-formed pairs whose first non-empty [_ga]
    pair has a value made of four or more fields joined by dots, the fields
    holding neither [.] nor [%], the accessor returns the third and the
    fourth field joined by a dot; and when the jar has no non-empty [_ga]
    pair, it returns the empty string. *)
Theorem getClientIdFromCookie_of_jar
    (jar : list (jsstring * jsstring)) (e : env) :
  Forall cookie_pair_ok jar ->
  document_cookie e = cookie_string jar ->
  (forall f0 f1 f2 f3 more,
   jar_lookup (str "_ga") jar
   = Some (JsString.join 46 (f0 :: f1 :: f2 :: f3 :: more)) ->
   Forall (fun f => ~ In 46%N f /\ ~ In 37%N f)
          (f0 :: f1 :: f2 :: f3 :: more) ->
   result (getClientIdFromCookie e) = Normal (f2 ++ str "." ++ f3)) /\
  (jar_lookup (str "_ga") jar = None ->
   result (getClientIdFromCookie e) = Normal []).
Proof.
  intros Hj He.
  pose proof (readCookie_of_jar (str "_ga") jar e ga_name_ok Hj He) as R.
  assert (Q : result (getClientIdFromCookie e)
              = cmap client_id_of (result (readCookie (str "_ga") e)))
    by (now rewrite getClientIdFromCookie_run).
  rewrite Q, R.
  split.
  - intros f0 f1 f2 f3 more Hl Hf. rewrite Hl.
    rewrite URIFacts.decode_no_percent by (now apply join_no_percent).
    simpl cmap. f_equal. apply client_id_of_fields.
    eapply Forall_impl; [|exact Hf]. now intros f [H _].
  - intros Hl. now rewrite Hl.
Qed.

(** X5, at a concrete input. *)
Lemma getClientIdFromCookie_of_jar_witness :
  (forall f0 f1 f2 f3 more,
   jar_lookup (str "_ga")
     [(str "theme", str "dark"); (str "_ga", str "GA1.2.1234567890.1111111111")]
   = Some (JsString.join 46 (f0 :: f1 :: f2 :: f3 :: more)) ->
   Forall (fun f => ~ In 46%N f /\ ~ In 37%N f)
          (f0 :: f1 :: f2 :: f3 :: more) ->
   result (getClientIdFromCookie
             (cookie_env
                (cookie_string
                   [(str "theme", str "dark");
                    (str "_ga", str "GA1.2.1234567890.1111111111")])))
   = Normal (f2 ++ str "." ++ f3)) /\
  (jar_lookup (str "_ga")
     [(str "theme", str "dark"); (str "_ga", str "GA1.2.1234567890.1111111111")]
   = None ->
   result (getClientIdFromCookie
             (cookie_env
                (cookie_string
                   [(str "theme", str "dark");
                    (str "_ga", str "GA1.2.1234567890.1111111111")])))
   = Normal []).
Proof.
  apply (getClientIdFromCookie_of_jar
           [(str "theme", str "dark");
            (str "_ga", str "GA1.2.1234567890.1111111111")]);
    [|reflexivity].
  repeat constructor; simpl; try discriminate; reflexivity.
Defined.

Lemma session_name_ok (id : jsstring) :
  forallb is_token_char id = true -> cookie_name_ok (str "_ga_" ++ id).
Proof.
  intros H. split; [discriminate|].
  rewrite forallb_app, H. reflexivity.
Qed.

(** X6: the session id comes back from the jar.  For a measurement id
    [G-<ID>] whose [<ID>] is made of name characters, when [document.cookie]
    is the string of a jar of well-formed pairs whose first non-empty
    [_ga_<ID>] pair has a value made of three or more fields joined by dots,
    the fields holding neither [.] nor [%], the accessor returns the third
    field; and when the jar has no non-empty [_ga_<ID>] pair, it returns the
    empty string. *)
Theorem getSessionIdFromCookie_of_jar
    (id : jsstring) (jar : list (jsstring * jsstring)) (e : env) :
  forallb is_token_char id = true ->
  Forall cookie_pair_ok jar ->
  document_cookie e = cookie_string jar ->
  (forall f0 f1 f2 more,
   jar_lookup (str "_ga_" ++ id) jar
   = Some (JsString.join 46 (f0 :: f1 :: f2 :: more)) ->
   Forall (fun f => ~ In 46%N f /\ ~ In 37%N f) (f0 :: f1 :: f2 :: more) ->
   result (getSessionIdFromCookie (str "G-" ++ id) e) = Normal f2) /\
  (jar_lookup (str "_ga_" ++ id) jar = None ->
   result (getSessionIdFromCookie (str "G-" ++ id) e) = Normal []).
Proof.
  intros Hid Hj He.
  pose proof (readCookie_of_jar (str "_ga_" ++ id) jar e
                (session_name_ok id Hid) Hj He) as R.
  assert (Q : result (getSessionIdFromCookie (str "G-" ++ id) e)
              = cmap session_id_of (result (readCookie (str "_ga_" ++ id) e)))
    by (now rewrite getSessionIdFromCookie_run, session_cookie_name_prefix).
  rewrite Q, R.
  split.
  - intros f0 f1 f2 more Hl Hf. rewrite Hl.
    rewrite URIFacts.decode_no_percent by (now apply join_no_percent).
    simpl cmap. f_equal. apply session_id_of_fields.
    eapply Forall_impl; [|exact Hf]. now intros f [H _].
  - intros Hl. now rewrite Hl.
Qed.

(** X6, at a concrete input. *)
Lemma getSessionIdFromCookie_of_jar_witness :
  (forall f0 f1 f2 more,
   jar_lookup (str "_ga_" ++ str "ABCDEF1234")
     [(str "_ga", str "GA1.2.3.4"); (str "_ga_ABCDEF1234", str "GS1.1.9988.5")]
   = Some (JsString.join 46 (f0 :: f1 :: f2 :: more)) ->
   Forall (fun f => ~ In 46%N f /\ ~ In 37%N f) (f0 :: f1 :: f2 :: more) ->
   result (getSessionIdFromCookie (str "G-" ++ str "ABCDEF1234")
             (cookie_env
                (cookie_string
                   [(str "_ga", str "GA1.2.3.4");
                    (str "_ga_ABCDEF1234", str "GS1.1.9988.5")])))
   = Normal f2) /\
  (jar_lookup (str "_ga_" ++ str "ABCDEF1234")
     [(str "_ga", str "GA1.2.3.4"); (str "_ga_ABCDEF1234", str "GS1.1.9988.5")]
   = None ->
   result (getSessionIdFromCookie (str "G-" ++ str "ABCDEF1234")
             (cookie_env
                (cookie_string
                   [(str "_ga", str "GA1.2.3.4");
                    (str "_ga_ABCDEF1234", str "GS1.1.9988.5")])))
   = Normal []).
Proof.
  apply (getSessionIdFromCookie_of_jar (str "ABCDEF1234")
           [(str "_ga", str "GA1.2.3.4");
            (str "_ga_ABCDEF1234", str "GS1.1.9988.5")]);
    [reflexivity| |reflexivity].
  repeat constructor; simpl; try discriminate; reflexivity.
Defined.

(** ** The resolvers, run by run *)

Lemma gtag_executor_callable (property message measurementId : jsstring)
    (e : env) (f : jsstring -> jsstring -> gtag_run) :
  window_gtag e = Callable f ->
  gtag_executor property message measurementId e =
  (CallGtag measurementId property
     :: warnings_of_run message (f measurementId property),
   Normal (promise_of_run (f measurementId property))).
Proof.
  intros Hg. rewrite gtag_executor_run. unfold call_gtag. rewrite Hg.
  reflexivity.
Qed.

Lemma promise_of_run_not_Rejected (run : gtag_run) (x : exn) :
  after_executor (promise_of_run run) <> Rejected x.
Proof.
  unfold promise_of_run; simpl.
  assert (H : forall x',
             fold_left (fun st v => resolve (or_empty v) st)
                       (sync_values run) Pending <> Rejected x')
    by (intros x'; apply (fold_resolve_not_Rejected _ or_empty);
        discriminate).
  destruct (sync_throw run); [|apply H].
  destruct (fold_left _ (sync_values run) Pending) eqn:E; simpl;
    try discriminate.
  apply H.
Qed.

Lemma race_of_run (now ms : N) (run : gtag_run) :
  exists t v,
    race (settlement now (promise_of_run run)) (timer now ms)
    = Some (t, Normal v).
Proof.
  unfold race, timer, settlement.
  destruct (after_executor (promise_of_run run)) eqn:E.
  - destruct (callbacks (promise_of_run run)) as [|[gap v] rest];
      [now eauto|].
    destruct (N.leb (now + gap) (now + ms)); eauto.
  - destruct (N.leb now (now + ms)); eauto.
  - now destruct (promise_of_run_not_Rejected run e).
Qed.

Section ResolverRuns.
Variables property wrapper_message message : jsstring.
Variable accessor : jsstring -> M jsstring.
Hypothesis accessor_trace :
  forall measurementId e, trace (accessor measurementId e) = [ReadCookie].

Local Abbreviation resolver :=
  (fun m t => run_async
                (resolver_body property wrapper_message message accessor m t)).
Local Abbreviation fallback m := (v <- accessor m ;; ret (JStr v)).

(** The whole outcome, given what the race yields. *)
Lemma resolver_run_callable (measurementId : jsstring) (timeout : option Z)
    (w : world) (now : N) (f : jsstring -> jsstring -> gtag_run)
    (t : N) (r : completion jsval) :
  window_gtag (w now) = Callable f ->
  window_google_tag_manager (w now) = true ->
  measurementId <> [] ->
  race (settlement now (promise_of_run (f measurementId property)))
       (timer now (timer_delay timeout)) = Some (t, r) ->
  resolver measurementId timeout w now =
  ((CallGtag measurementId property
      :: warnings_of_run wrapper_message (f measurementId property)
      ++ [SetTimeout (timer_delay timeout)])
     ++ trace (resume message (fallback measurementId) r (w t)),
   Some (t, result (resume message (fallback measurementId) r (w t)))).
Proof.
  intros Hg Hm Hid Hr.
  assert (H : live_api_available measurementId (w now) = true).
  { apply live_api_available_iff. rewrite Hg. now repeat split. }
  destruct (body_available property wrapper_message message accessor
              measurementId timeout (w now) H) as (live & Hl & Hb).
  rewrite (gtag_executor_callable _ _ _ _ _ Hg) in Hl, Hb.
  unfold result in Hl; simpl in Hl. injection Hl as <-.
  unfold run_async. rewrite Hb. cbv beta iota. rewrite Hr.
  unfold trace, result; simpl fst.
  now destruct (resume message _ r (w t)).
Qed.

Lemma resolver_falls_back_when_gtag_throws :
  falls_back_when_gtag_throws resolver property wrapper_message accessor.
Proof.
  intros measurementId timeout w now f error Hg Hm Hid Hs Ht.
  assert (Hr : race (settlement now (promise_of_run (f measurementId property)))
                    (timer now (timer_delay timeout))
               = Some (now, Normal (JStr []))).
  { unfold promise_of_run, settlement, race, timer. rewrite Hs, Ht. simpl.
    destruct (N.leb_spec now (now + timer_delay timeout)); [reflexivity|lia]. }
  rewrite (resolver_run_callable _ _ _ _ _ _ _ Hg Hm Hid Hr).
  rewrite (resume_falsy _ _ (JStr []) _ eq_refl), fallback_run.
  unfold warnings_of_run. rewrite Ht.
  unfold trace at 1, result; simpl fst; simpl snd.
  now rewrite accessor_trace.
Qed.

Lemma resolver_answers_in_time_or_falls_back :
  answers_in_time_or_falls_back resolver property accessor.
Proof.
  intros measurementId timeout w now f Hg Hm Hid run delay cookie out.
  assert (Hout : forall t v,
             race (settlement now (promise_of_run run)) (timer now delay)
             = Some (t, Normal v) ->
             (truthy v = true -> out = Some (t, Normal v)) /\
             (truthy v = false -> out = Some (t, cookie t))).
  { intros t v Hr. unfold out, settled.
    rewrite (resolver_run_callable _ _ _ _ _ _ _ Hg Hm Hid Hr). cbn [snd].
    split; intros Hv.
    - now rewrite (resume_truthy _ _ _ _ Hv).
    - now rewrite (resume_falsy _ _ _ _ Hv), fallback_run. }
  split.
  - intros v rest Hs.
    assert (Hr : race (settlement now (promise_of_run run)) (timer now delay)
                 = Some (now, Normal (or_empty v))).
    { unfold promise_of_run, settlement, race, timer. rewrite Hs.
      rewrite fold_resolve_first.
      replace (after_executor _) with (Fulfilled (or_empty v))
        by (simpl; now destruct (sync_throw run)).
      destruct (N.leb_spec now (now + delay)); [reflexivity|lia]. }
    destruct (Hout _ _ Hr) as [Ht Hf]. unfold or_empty in *.
    split; intros Hv; rewrite Hv in *; [now apply Ht|now apply Hf].
  - intros gap v rest Hs Ht Hl.
    assert (Hset : settlement now (promise_of_run run)
                   = Some ((now + gap)%N, Normal (or_empty v))).
    { unfold promise_of_run, settlement. rewrite Hs, Ht, Hl. reflexivity. }
    split; [|split].
    + intros Hle Hv.
      assert (Hr : race (settlement now (promise_of_run run)) (timer now delay)
                   = Some ((now + gap)%N, Normal (or_empty v))).
      { rewrite Hset. unfold race, timer.
        destruct (N.leb_spec (now + gap) (now + delay)); [reflexivity|lia]. }
      destruct (Hout _ _ Hr) as [H1 _]. unfold or_empty in *.
      rewrite Hv in *. now apply H1.
    + intros Hle Hv.
      assert (Hr : race (settlement now (promise_of_run run)) (timer now delay)
                   = Some ((now + gap)%N, Normal (or_empty v))).
      { rewrite Hset. unfold race, timer.
        destruct (N.leb_spec (now + gap) (now + delay)); [reflexivity|lia]. }
      destruct (Hout _ _ Hr) as [_ H2]. unfold or_empty in *.
      rewrite Hv in *. now apply H2.
    + intros Hlt.
      assert (Hr : race (settlement now (promise_of_run run)) (timer now delay)
                   = Some ((now + delay)%N, Normal (JStr []))).
      { rewrite Hset. unfold race, timer.
        destruct (N.leb_spec (now + gap) (now + delay)); [lia|reflexivity]. }
      destruct (Hout _ _ Hr) as [_ H2]. now apply H2.
Qed.

(** A rejection can only be that of the cookie accessor. *)
Lemma resolver_rejection (measurementId : jsstring) (timeout : option Z)
    (w : world) (now t : N) (x : exn) :
  settled (resolver measurementId timeout w now) = Some (t, Throw x) ->
  result (accessor measurementId (w t)) = Throw x.
Proof.
  intros Hset. cbv beta in Hset.
  assert (Hc : forall e, cmap JStr (result (accessor measurementId e))
                         = Throw x ->
                         result (accessor measurementId e) = Throw x).
  { intros e He. destruct (result (accessor measurementId e));
      [discriminate|]. simpl in He. congruence. }
  destruct (resolver_follows_three_steps property wrapper_message message
              accessor accessor_trace measurementId timeout w now)
    as (_ & H1 & H2 & _).
  cbv zeta beta in H1, H2.
  destruct (live_api_available measurementId (w now)) eqn:Ha.
  - destruct (H2 eq_refl) as (live & t' & raced & _ & _ & Ht & Hf).
    destruct (truthy raced) eqn:Er.
    + destruct (Ht eq_refl) as [E _]. rewrite E in Hset. discriminate.
    + destruct (Hf eq_refl) as [E _]. rewrite E in Hset.
      injection Hset as E1 E2. subst t'. exact (Hc _ E2).
  - rewrite (H1 eq_refl) in Hset. unfold settled in Hset; simpl in Hset.
    injection Hset as E1 E2. subst t. exact (Hc _ E2).
Qed.

(** Without the live API the resolver ends in its first turn. *)
Lemma resolver_unavailable (measurementId : jsstring) (timeout : option Z)
    (w : world) (now : N) :
  live_api_available measurementId (w now) = false ->
  settled (resolver measurementId timeout w now)
  = Some (now, cmap JStr (result (accessor measurementId (w now)))).
Proof.
  intros H.
  destruct (resolver_follows_three_steps property wrapper_message message
              accessor accessor_trace measurementId timeout w now)
    as (_ & H1 & _).
  cbv zeta beta in H1. cbv beta. now rewrite (H1 H).
Qed.
End ResolverRuns.

Lemma client_messages_differ :
  str "Native gtag client_id failed, falling back to cookie:"
  <> str "Error getting client_id from gtag:".
Proof. discriminate. Qed.

Lemma session_messages_differ :
  str "Native gtag session_id failed, falling back to cookie:"
  <> str "Error getting session_id from gtag:".
Proof. discriminate. Qed.

(** X7: when the live API is available and its call throws before it has
    invoked the callback, each resolver calls it once, the wrapper warns
    with the exception, the timer is set, and the resolver reads the cookie
    in the same turn and settles at once with the outcome of its cookie
    accessor, without waiting for the timer. *)
Theorem resolvers_fall_back_when_gtag_throws :
  falls_back_when_gtag_throws
    getClientId (str "client_id") (str "Error getting client_id from gtag:")
    (fun _ => getClientIdFromCookie) /\
  falls_back_when_gtag_throws
    getSessionId (str "session_id")
    (str "Error getting session_id from gtag:") getSessionIdFromCookie.
Proof.
  split.
  - exact (resolver_falls_back_when_gtag_throws
             (str "client_id") (str "Error getting client_id from gtag:")
             (str "Native gtag client_id failed, falling back to cookie:")
             (fun _ => getClientIdFromCookie)
             (fun _ => getClientIdFromCookie_trace)).
  - exact (resolver_falls_back_when_gtag_throws
             (str "session_id") (str "Error getting session_id from gtag:")
             (str "Native gtag session_id failed, falling back to cookie:")
             getSessionIdFromCookie getSessionIdFromCookie_trace).
Qed.

Example getClientId_gtag_throws :
  getClientId (str "G-ABCDEF1234") None
    (still (page (str "_ga=GA1.2.3.4")
                 (Callable (fun _ _ =>
                    {| sync_values := []; sync_throw := Some TypeError;
                       later_values := [(1%N, JStr (str "77.88"))] |}))))
    5
  = ([CallGtag (str "G-ABCDEF1234") (str "client_id");
      Warn (str "Error getting client_id from gtag:") TypeError;
      SetTimeout 2000; ReadCookie],
     Some (5%N, Normal (JStr (str "3.4")))).
Proof. reflexivity. Qed.

(** X8: when the live API is available, what each resolver settles with
    follows the first invocation of the callback.  Invoked during the call
    with a truthy value, the resolver is fulfilled with it at once, whatever
    the timeout; invoked first by a later task, strictly before the timer
    fires, with a truthy value, it is fulfilled with it at that instant; a
    falsy value in either case sends it to the cookie accessor at that
    instant; and an answer that comes strictly after the timer has fired is
    discarded: the resolver has settled with the outcome of the cookie
    accessor when the timer fired.  An answer due at the very instant of
    the timer is left open. *)
Theorem resolvers_answer_in_time_or_fall_back :
  answers_in_time_or_falls_back
    getClientId (str "client_id") (fun _ => getClientIdFromCookie) /\
  answers_in_time_or_falls_back
    getSessionId (str "session_id") getSessionIdFromCookie.
Proof.
  split.
  - exact (resolver_answers_in_time_or_falls_back
             (str "client_id") (str "Error getting client_id from gtag:")
             (str "Native gtag client_id failed, falling back to cookie:")
             (fun _ => getClientIdFromCookie)).
  - exact (resolver_answers_in_time_or_falls_back
             (str "session_id") (str "Error getting session_id from gtag:")
             (str "Native gtag session_id failed, falling back to cookie:")
             getSessionIdFromCookie).
Qed.

Example getSessionId_answer_before_the_timeout :
  settled (getSessionId (str "G-ABCDEF1234") (Some 50%Z)
             (still (page [] (answering_gtag 49 (JNum 1700000000)))) 0)
  = Some (49%N, Normal (JNum 1700000000)).
Proof. reflexivity. Qed.

Example getSessionId_answer_after_the_timeout :
  settled (getSessionId (str "G-ABCDEF1234") (Some 50%Z)
             (still (page [] (answering_gtag 51 (JNum 1700000000)))) 0)
  = Some (50%N, Normal (JStr [])).
Proof. reflexivity. Qed.

Lemma getClientId_rejection (measurementId : jsstring) (timeout : option Z)
    (w : world) (now t : N) (x : exn) :
  settled (getClientId measurementId timeout w now) = Some (t, Throw x) ->
  result (getClientIdFromCookie (w t)) = Throw x.
Proof.
  exact (resolver_rejection
           (str "client_id") (str "Error getting client_id from gtag:")
           (str "Native gtag client_id failed, falling back to cookie:")
           (fun _ => getClientIdFromCookie)
           (fun _ => getClientIdFromCookie_trace)
           measurementId timeout w now t x).
Qed.

Lemma getSessionId_rejection (measurementId : jsstring) (timeout : option Z)
    (w : world) (now t : N) (x : exn) :
  settled (getSessionId measurementId timeout w now) = Some (t, Throw x) ->
  result (getSessionIdFromCookie measurementId (w t)) = Throw x.
Proof.
  exact (resolver_rejection
           (str "session_id") (str "Error getting session_id from gtag:")
           (str "Native gtag session_id failed, falling back to cookie:")
           getSessionIdFromCookie getSessionIdFromCookie_trace
           measurementId timeout w now t x).
Qed.

(** ** The resolvers when the callback is handed any value *)

Lemma any_available_iff (measurementId : jsstring) (e : Any.env) :
  truthy (Any.isGtagAvailable measurementId e) = true <->
  (exists f, Any.window_gtag e = Any.Callable f) /\
  Any.window_google_tag_manager e = true /\ measurementId <> [].
Proof.
  unfold Any.isGtagAvailable.
  destruct (Any.window_gtag e) as [| |f];
    destruct (Any.window_google_tag_manager e);
    destruct measurementId as [|c m]; simpl; split;
    try discriminate;
    try (intros _; split; [now exists f|split; [reflexivity|discriminate]]);
    intros ([g Hg] & H1 & H2); try discriminate; congruence.
Qed.

(** A race against a timer is settled no later than the timer. *)
Lemma race_against_timer {A : Type} (p : promise A) (T : N)
    (r0 : completion A) :
  exists t r,
    race p (Some (T, r0)) = Some (t, r) /\
    ((p = Some (t, r) /\ (t <= T)%N) \/
     (t = T /\ r = r0 /\
      forall t' r', p = Some (t', r') -> (T < t')%N)).
Proof.
  destruct p as [[tp rp]|]; simpl.
  - destruct (N.leb_spec tp T).
    + exists tp, rp. split; [reflexivity|]. left. now split.
    + exists T, r0. split; [reflexivity|]. right.
      split; [reflexivity|]. split; [reflexivity|].
      intros t' r' E. injection E as <- <-. exact H.
  - exists T, r0. split; [reflexivity|]. right.
    split; [reflexivity|]. split; [reflexivity|]. discriminate.
Qed.

Section AnyResolver.
Variables property wrapper_message message : jsstring.
Variable accessor : jsstring -> M jsstring.
Hypothesis accessor_trace :
  forall measurementId e, trace (accessor measurementId e) = [ReadCookie].
Hypothesis messages_differ : message <> wrapper_message.

Local Abbreviation resolver :=
  (Any.resolver property wrapper_message message accessor).
Local Abbreviation cookie m e :=
  (cmap (fun s => Any.Prim (JStr s))
        (result (accessor m (cookie_env (Any.document_cookie e))))).
Local Abbreviation warnings run :=
  (match Any.throws run with
   | Some error => [Warn wrapper_message error]
   | None => []
   end).

Lemma any_fallback_run (measurementId : jsstring) (e : Any.env) :
  Any.fallback (accessor measurementId) e
  = ([ReadCookie], cookie measurementId e).
Proof. unfold Any.fallback. now rewrite accessor_trace. Qed.

Lemma any_resolver_unavailable (measurementId : jsstring)
    (timeout : option Z) (w : Any.world) (now : N) :
  truthy (Any.isGtagAvailable measurementId (w now)) = false ->
  resolver measurementId timeout w now
  = ([ReadCookie], Some (now, cookie measurementId (w now))).
Proof.
  intros H. unfold Any.resolver. rewrite H, any_fallback_run. reflexivity.
Qed.

(** The whole outcome, given what the race yields. *)
Lemma any_resolver_available (measurementId : jsstring) (timeout : option Z)
    (w : Any.world) (now : N) (f : jsstring -> jsstring -> Any.gtag_run)
    (t : N) (raced : completion Any.value) :
  Any.window_gtag (w now) = Any.Callable f ->
  Any.window_google_tag_manager (w now) = true ->
  measurementId <> [] ->
  race (Any.outcome (Any.resolve_calls now (f measurementId property)))
       (Some ((now + timer_delay timeout)%N, Normal (Any.Prim (JStr []))))
  = Some (t, raced) ->
  resolver measurementId timeout w now
  = (CallGtag measurementId property
     :: warnings (f measurementId property)
     ++ SetTimeout (timer_delay timeout)
     :: fst (Any.resume message ([ReadCookie], cookie measurementId (w t))
                        raced),
     Some (t, snd (Any.resume message
                     ([ReadCookie], cookie measurementId (w t)) raced))).
Proof.
  intros Hg Hm Hid Hr.
  assert (H : truthy (Any.isGtagAvailable measurementId (w now)) = true).
  { apply any_available_iff. split; [now exists f|now split]. }
  unfold Any.resolver. rewrite H.
  rewrite (any_gtag_executor_Callable _ _ _ _ _ _ Hg). cbv zeta.
  rewrite Hr, any_fallback_run.
  now destruct (Any.resume message _ raced).
Qed.

Lemma any_resolver_cases (measurementId : jsstring) (timeout : option Z)
    (w : Any.world) (now : N) :
  resolver measurementId timeout w now
  = ([ReadCookie], Some (now, cookie measurementId (w now))) \/
  exists f t raced,
    Any.window_gtag (w now) = Any.Callable f /\
    race (Any.outcome (Any.resolve_calls now (f measurementId property)))
         (Some ((now + timer_delay timeout)%N, Normal (Any.Prim (JStr []))))
    = Some (t, raced) /\
    ((Any.outcome (Any.resolve_calls now (f measurementId property))
      = Some (t, raced) /\ (t <= now + timer_delay timeout)%N) \/
     (t = (now + timer_delay timeout)%N /\
      raced = Normal (Any.Prim (JStr [])))) /\
    resolver measurementId timeout w now
    = (CallGtag measurementId property
       :: warnings (f measurementId property)
       ++ SetTimeout (timer_delay timeout)
       :: fst (Any.resume message ([ReadCookie], cookie measurementId (w t))
                          raced),
       Some (t, snd (Any.resume message
                       ([ReadCookie], cookie measurementId (w t)) raced))).
Proof.
  destruct (truthy (Any.isGtagAvailable measurementId (w now))) eqn:H.
  - right. apply any_available_iff in H. destruct H as ([f Hg] & Hm & Hid).
    destruct (race_against_timer
                (Any.outcome (Any.resolve_calls now (f measurementId property)))
                (now + timer_delay timeout)%N (Normal (Any.Prim (JStr []))))
      as (t & raced & Hr & Hc).
    exists f, t, raced. split; [exact Hg|]. split; [exact Hr|].
    split.
    + destruct Hc as [Hc|(Ht & Hv & _)]; [now left|right; now split].
    + now apply any_resolver_available.
  - left. now apply any_resolver_unavailable.
Qed.

Lemma any_resolver_warns : 
  warns_only_for_a_rejecting_thenable
    resolver property wrapper_message message accessor.
Proof.
  intros measurementId timeout w now. cbv zeta.
  assert (W : forall run x, ~ In (Warn message x) (warnings run)).
  { intros run x. destruct (Any.throws run); simpl; [|tauto].
    intros [E|[]]. injection E as E _. now apply messages_differ. }
  assert (Hwarn : forall x, 
            In (Warn message x) (trace (resolver measurementId timeout w now)) ->
            exists f t0 d,
              Any.window_gtag (w now) = Any.Callable f /\
              Any.state_after
                (Any.resolve_calls now (f measurementId property)) 1
              = Any.ResolvedWith t0 (Any.Thenable (Some (d, Throw x))) /\
              (t0 + d <= now + timer_delay timeout)%N /\
              settled (resolver measurementId timeout w now)
              = Some ((t0 + d)%N, cookie measurementId (w (t0 + d)%N))).
  { intros x Hin.
    destruct (any_resolver_cases measurementId timeout w now)
      as [E|(f & t & raced & Hg & Hr & Hc & E)]; rewrite E in Hin |- *.
    - simpl in Hin. destruct Hin as [Hin|[]]. discriminate.
    - unfold trace in Hin; cbn [fst] in Hin.
      destruct Hin as [Hin|Hin]; [discriminate|].
      apply in_app_or in Hin. destruct Hin as [Hin|Hin];
        [now apply W in Hin|].
      destruct Hin as [Hin|Hin]; [discriminate|].
      destruct raced as [v|y].
      + exfalso. simpl in Hin. destruct (Any.value_truthy v); simpl in Hin.
        * exact Hin.
        * destruct Hin as [Hin|[]]. discriminate.
      + simpl in Hin. destruct Hin as [Hin|[Hin|[]]]; [|discriminate].
        injection Hin as <-.
        destruct Hc as [[Ho Hle]|[_ Hv]]; [|discriminate].
        destruct (AnyFacts.outcome_Throw _ _ _ Ho) as (t0 & d & Hs & ->).
        exists f, t0, d. now repeat split. }
  split; [|split; [exact Hwarn|split]].
  - destruct (any_resolver_cases measurementId timeout w now)
      as [E|(f & t & raced & Hg & Hr & Hc & E)]; rewrite E.
    + now left.
    + right. exists (warnings (f measurementId property)).
      exists (fst (Any.resume message
                     ([ReadCookie], cookie measurementId (w t)) raced)).
      split; [reflexivity|]. split.
      * destruct (Any.throws (f measurementId property)) as [error|];
          [right; now exists error|now left].
      * destruct raced as [v|y]; simpl.
        -- destruct (Any.value_truthy v); [now left|right; now left].
        -- right. right. now exists y.
  - intros f t0 d x Hg Hm Hid Hs Hlt.
    assert (Ho : Any.outcome
                   (Any.resolve_calls now (f measurementId property))
                 = Some ((t0 + d)%N, Throw x)).
    { rewrite AnyFacts.outcome_first, Hs. reflexivity. }
    assert (Hr : race (Any.outcome
                         (Any.resolve_calls now (f measurementId property)))
                      (Some ((now + timer_delay timeout)%N,
                             Normal (Any.Prim (JStr []))))
                 = Some ((t0 + d)%N, Throw x)).
    { rewrite Ho. unfold race.
      destruct (N.leb_spec (t0 + d) (now + timer_delay timeout));
        [reflexivity|lia]. }
    rewrite (any_resolver_available _ _ _ _ _ _ _ Hg Hm Hid Hr).
    reflexivity.
  - intros f Hg Hs Hl x Hin.
    destruct (Hwarn x Hin) as (f' & t0 & d & Hg' & Hst & _).
    rewrite Hg in Hg'. injection Hg' as <-.
    pose proof (AnyFacts.resolve_calls_plain now _ Hs Hl) as Hp.
    destruct (Any.resolve_calls now (f measurementId property))
      as [|tc rest].
    + rewrite AnyFacts.state_after_nil in Hst. discriminate.
    + rewrite AnyFacts.state_after_cons in Hst by lia.
      inversion Hp as [|? ? Hc _]; subst.
      injection Hst as _ Hc'. rewrite Hc' in Hc. exact Hc.
Qed.

(** A rejection can only be that of the cookie accessor. *)
Lemma any_resolver_rejection (measurementId : jsstring) (timeout : option Z)
    (w : Any.world) (now t : N) (x : exn) :
  settled (resolver measurementId timeout w now) = Some (t, Throw x) ->
  result (accessor measurementId (cookie_env (Any.document_cookie (w t))))
  = Throw x.
Proof.
  intros H.
  assert (C : forall e, cookie measurementId e = Throw x ->
              result (accessor measurementId
                        (cookie_env (Any.document_cookie e))) = Throw x).
  { intros e. destruct (result (accessor measurementId _)); simpl;
      [discriminate|congruence]. }
  destruct (any_resolver_cases measurementId timeout w now)
    as [E|(f & t' & raced & Hg & Hr & Hc & E)]; rewrite E in H;
    unfold settled in H; cbn [snd] in H.
  - injection H as <- H. now apply C.
  - injection H as <- H. apply C.
    destruct raced as [v|y]; simpl in H; [|exact H].
    destruct (Any.value_truthy v); [discriminate|exact H].
Qed.

End AnyResolver.

(** ** The two descriptions of the live API agree on primitive values *)

Lemma cmap_cmap {A B C : Type} (f : A -> B) (g : B -> C) (c : completion A) :
  cmap g (cmap f c) = cmap (fun a => g (f a)) c.
Proof. now destruct c. Qed.

Lemma any_or_empty_value (v : jsval) :
  Any.or_empty (any_value v) = any_value (or_empty v).
Proof. unfold any_value, or_empty. simpl. now destruct (truthy v). Qed.

Lemma any_outcome_of_run (now : N) (run : gtag_run) :
  Any.outcome (Any.resolve_calls now (any_run run))
  = any_promise (settlement now (promise_of_run run)).
Proof.
  unfold Any.resolve_calls, promise_of_run, settlement, any_run.
  cbn [Any.sync_calls Any.throws Any.later_calls after_executor callbacks].
  destruct (sync_values run) as [|v vs].
  - cbn [map app fold_left].
    destruct (sync_throw run) as [error|].
    { cbn [app]. now rewrite AnyFacts.outcome_cons. }
    destruct (later_values run) as [|[gap v] rest]; [reflexivity|].
    cbn [map app Any.later_instants fst snd].
    rewrite AnyFacts.outcome_cons. cbn [fst snd].
    rewrite any_or_empty_value. reflexivity.
  - rewrite (fold_resolve_first _ or_empty v vs).
    cbn [map app]. rewrite AnyFacts.outcome_cons. cbn [fst snd].
    rewrite any_or_empty_value.
    now destruct (sync_throw run).
Qed.

Lemma race_any_promise (p q : promise jsval) :
  race (any_promise p) (any_promise q) = any_promise (race p q).
Proof.
  destruct p as [[tp rp]|], q as [[tq rq]|]; simpl; try reflexivity.
  now destruct (N.leb tp tq).
Qed.

Lemma any_available (measurementId : jsstring) (e : env) :
  truthy (Any.isGtagAvailable measurementId (any_env e))
  = live_api_available measurementId e.
Proof.
  unfold live_api_available, Any.isGtagAvailable.
  rewrite isGtagAvailable_run. unfold result; simpl.
  now destruct (window_gtag e).
Qed.

Section Agreement.
Variables property wrapper_message message : jsstring.
Variable accessor : jsstring -> M jsstring.
Hypothesis accessor_trace :
  forall measurementId e, trace (accessor measurementId e) = [ReadCookie].
Hypothesis accessor_reads_the_cookie :
  forall measurementId e,
    accessor measurementId (cookie_env (document_cookie e))
    = accessor measurementId e.

Lemma any_resume (measurementId : jsstring) (r : completion jsval) (e : env) :
  Any.resume message
    ([ReadCookie],
     cmap (fun s => Any.Prim (JStr s))
          (result (accessor measurementId
                     (cookie_env (Any.document_cookie (any_env e))))))
    (cmap Any.Prim r)
  = (trace (resume message (v <- accessor measurementId ;; ret (JStr v)) r e),
     cmap Any.Prim
          (result (resume message
                     (v <- accessor measurementId ;; ret (JStr v)) r e))).
Proof.
  change (Any.document_cookie (any_env e)) with (document_cookie e).
  rewrite accessor_reads_the_cookie.
  pose proof (accessor_trace measurementId e) as T.
  unfold Any.resume, resume, bind, ret, console_warn, trace, result in T |- *.
  destruct r as [v|x]; simpl; try destruct (truthy v); try reflexivity;
    cbv beta;
    destruct (accessor measurementId e) as [tr [c|y]]; simpl in T; subst tr;
    reflexivity.
Qed.

Lemma any_resolver_agrees :
  agrees_on_primitive_values
    (Any.resolver property wrapper_message message accessor)
    (fun m t => run_async
                  (resolver_body property wrapper_message message accessor
                                 m t)).
Proof.
  intros measurementId timeout w now.
  destruct (live_api_available measurementId (w now)) eqn:H.
  - pose proof H as H'. apply live_api_available_iff in H'.
    destruct H' as (Hf & Hm & Hid).
    destruct (window_gtag (w now)) as [| |f] eqn:Hg; try discriminate.
    destruct (race_with_timer now (timer_delay timeout)
                (settlement now (promise_of_run (f measurementId property))))
      as (t & r & Hr & _).
    rewrite (resolver_run_callable property wrapper_message message accessor
               measurementId timeout w now f t r Hg Hm Hid Hr).
    assert (Hg' : Any.window_gtag (any_world w now)
                  = Any.Callable (fun m p => any_run (f m p))).
    { unfold any_world, any_env. simpl. now rewrite Hg. }
    assert (Hr' : race (Any.outcome
                          (Any.resolve_calls now
                             (any_run (f measurementId property))))
                       (Some ((now + timer_delay timeout)%N,
                              Normal (Any.Prim (JStr []))))
                  = Some (t, cmap Any.Prim r)).
    { rewrite any_outcome_of_run.
      change (Some ((now + timer_delay timeout)%N,
                    Normal (Any.Prim (JStr []))))
        with (any_promise (timer now (timer_delay timeout))).
      now rewrite race_any_promise, Hr. }
    rewrite (any_resolver_available property wrapper_message message accessor
               accessor_trace measurementId timeout (any_world w) now _ t _
               Hg' Hm Hid Hr').
    unfold any_world at 1 2. rewrite any_resume.
    unfold trace, settled, warnings_of_run; cbn [fst snd any_promise].
    unfold any_run; cbn [Any.throws].
    f_equal. rewrite <- app_comm_cons, <- app_assoc. reflexivity.
  - destruct (resolver_follows_three_steps property wrapper_message message
                accessor accessor_trace measurementId timeout w now)
      as (_ & H1 & _).
    cbv zeta beta in H1. rewrite (H1 H).
    rewrite (any_resolver_unavailable property wrapper_message message
               accessor accessor_trace);
      [|unfold any_world; now rewrite any_available].
    unfold any_world.
    change (Any.document_cookie (any_env (w now)))
      with (document_cookie (w now)).
    rewrite accessor_reads_the_cookie.
    unfold trace, settled; cbn [fst snd any_promise].
    now rewrite accessor_trace, cmap_cmap.
Qed.

End Agreement.

Lemma readCookie_reads_the_cookie (name : jsstring) (e : env) :
  readCookie name (cookie_env (document_cookie e)) = readCookie name e.
Proof.
  unfold readCookie, bind, read_document_cookie, cookie_env.
  cbn [document_cookie].
  now destruct (RegExp.match_cookie name (document_cookie e)).
Qed.

Lemma getClientIdFromCookie_reads_the_cookie (e : env) :
  getClientIdFromCookie (cookie_env (document_cookie e))
  = getClientIdFromCookie e.
Proof.
  unfold getClientIdFromCookie, bind.
  rewrite readCookie_reads_the_cookie.
  destruct (readCookie (str "_ga") e) as [t [[|c v]|x]]; reflexivity.
Qed.

Lemma getSessionIdFromCookie_reads_the_cookie (measurementId : jsstring)
    (e : env) :
  getSessionIdFromCookie measurementId (cookie_env (document_cookie e))
  = getSessionIdFromCookie measurementId e.
Proof.
  unfold getSessionIdFromCookie, bind.
  rewrite readCookie_reads_the_cookie.
  destruct (readCookie _ e) as [t [[|c v]|x]]; reflexivity.
Qed.

(** X13: handed primitive values only, the resolvers that let the callback
    receive any value do what the resolvers for primitive values do: for
    every measurement id, timeout, world and starting instant, the same
    effects in the same order, and a promise that settles at the same
    instant with the same outcome, or stays pending as well. *)
Theorem resolvers_agree_on_primitive_values :
  agrees_on_primitive_values Any.getClientId getClientId /\
  agrees_on_primitive_values Any.getSessionId getSessionId.
Proof.
  split.
  - exact (any_resolver_agrees
             (str "client_id") (str "Error getting client_id from gtag:")
             (str "Native gtag client_id failed, falling back to cookie:")
             (fun _ => getClientIdFromCookie)
             (fun _ => getClientIdFromCookie_trace)
             (fun _ => getClientIdFromCookie_reads_the_cookie)).
  - exact (any_resolver_agrees
             (str "session_id") (str "Error getting session_id from gtag:")
             (str "Native gtag session_id failed, falling back to cookie:")
             getSessionIdFromCookie getSessionIdFromCookie_trace
             getSessionIdFromCookie_reads_the_cookie).
Qed.

(** X9: what a resolver does to its surroundings, whatever the callback of
    [gtag] is handed.  Either it only reads the cookie, once; or it calls
    the live API once for its own property, then sets one timer, with at
    most one warning of the wrapper in between, and after the timer
    nothing, or one read of the cookie, or the warning of its own handler
    and one read of the cookie.  The handler of the resolver warns only
    when the promise of the wrapper was rejected no later than the timer,
    which takes a thenable that rejects as the first value handed to the
    callback, and the resolver then settles with the outcome of its cookie
    accessor; it does warn, and read the cookie, when that rejection comes
    strictly before the timer fires; and it never warns when the callback
    is handed no thenable. *)
Theorem resolvers_warn_only_for_a_rejecting_thenable :
  warns_only_for_a_rejecting_thenable
    Any.getClientId (str "client_id")
    (str "Error getting client_id from gtag:")
    (str "Native gtag client_id failed, falling back to cookie:")
    (fun _ => getClientIdFromCookie) /\
  warns_only_for_a_rejecting_thenable
    Any.getSessionId (str "session_id")
    (str "Error getting session_id from gtag:")
    (str "Native gtag session_id failed, falling back to cookie:")
    getSessionIdFromCookie.
Proof.
  split.
  - exact (any_resolver_warns
             (str "client_id") (str "Error getting client_id from gtag:")
             (str "Native gtag client_id failed, falling back to cookie:")
             (fun _ => getClientIdFromCookie)
             (fun _ => getClientIdFromCookie_trace)
             client_messages_differ).
  - exact (any_resolver_warns
             (str "session_id") (str "Error getting session_id from gtag:")
             (str "Native gtag session_id failed, falling back to cookie:")
             getSessionIdFromCookie getSessionIdFromCookie_trace
             session_messages_differ).
Qed.

(** The wrapper is rejected by a thenable and the resolver is not: its
    handler warns and the cookie answers. *)
Example getClientId_thenable_rejects :
  Any.getClientId (str "G-ABCDEF1234") None
    (fun _ => any_page (str "_ga=GA1.2.3.4")
                       (rejecting_gtag (UserError (str "denied"))))
    5
  = ([CallGtag (str "G-ABCDEF1234") (str "client_id"); SetTimeout 2000;
      Warn (str "Native gtag client_id failed, falling back to cookie:")
           (UserError (str "denied"));
      ReadCookie],
     Some (5%N, Normal (Any.Prim (JStr (str "3.4"))))).
Proof. reflexivity. Qed.

(** X10: called with a string for the measurement id, the asynchronous
    accessors fail only as the cookie fallback does, whatever the callback
    of [gtag] is handed.  For every such id, timeout, world and starting
    instant, if the promise of [getClientId] or of [getSessionId] is
    rejected at an instant, the reason is URIError and it is what the
    cookie accessor throws on the cookie string of that instant; and if the
    promise of [getGA4Identifiers] is rejected, the reason is URIError
    too.  Nothing the live API does rejects them: not a call that throws,
    and not a thenable that rejects. *)
Theorem async_accessors_reject_only_with_URIError
    (measurementId : jsstring) (timeout : option Z) (w : Any.world)
    (now : N) :
  (forall t x,
   settled (Any.getClientId measurementId timeout w now)
   = Some (t, Throw x) ->
   x = URIError /\
   result (getClientIdFromCookie (cookie_env (Any.document_cookie (w t))))
   = Throw URIError) /\
  (forall t x,
   settled (Any.getSessionId measurementId timeout w now)
   = Some (t, Throw x) ->
   x = URIError /\
   result (getSessionIdFromCookie measurementId
             (cookie_env (Any.document_cookie (w t))))
   = Throw URIError) /\
  (forall t x,
   Any.getGA4Identifiers measurementId timeout w now = Some (t, Throw x) ->
   x = URIError).
Proof.
  assert (C : forall t x,
            settled (Any.getClientId measurementId timeout w now)
            = Some (t, Throw x) ->
            x = URIError /\
            result (getClientIdFromCookie
                      (cookie_env (Any.document_cookie (w t))))
            = Throw URIError).
  { intros t x H.
    apply (any_resolver_rejection
             (str "client_id") (str "Error getting client_id from gtag:")
             (str "Native gtag client_id failed, falling back to cookie:")
             (fun _ => getClientIdFromCookie)
             (fun _ => getClientIdFromCookie_trace)) in H.
    cbv beta in H.
    pose proof (getClientIdFromCookie_Throw _ _ H) as ->. now split. }
  assert (S : forall t x,
            settled (Any.getSessionId measurementId timeout w now)
            = Some (t, Throw x) ->
            x = URIError /\
            result (getSessionIdFromCookie measurementId
                      (cookie_env (Any.document_cookie (w t))))
            = Throw URIError).
  { intros t x H.
    apply (any_resolver_rejection
             (str "session_id") (str "Error getting session_id from gtag:")
             (str "Native gtag session_id failed, falling back to cookie:")
             getSessionIdFromCookie getSessionIdFromCookie_trace) in H.
    pose proof (getSessionIdFromCookie_Throw _ _ _ H) as ->. now split. }
  split; [exact C|]. split; [exact S|].
  intros t x H. unfold Any.getGA4Identifiers in H.
  destruct (settled (Any.getClientId measurementId timeout w now))
    as [[tc [c|xc]]|] eqn:Hc;
    destruct (settled (Any.getSessionId measurementId timeout w now))
      as [[ts [s|xs]]|] eqn:Hs;
    simpl in H; try discriminate.
  - injection H as _ <-. now destruct (S _ _ eq_refl).
  - injection H as _ <-. now destruct (C _ _ eq_refl).
  - destruct (N.leb tc ts); injection H as _ <-;
      [now destruct (C _ _ eq_refl)|now destruct (S _ _ eq_refl)].
  - injection H as _ <-. now destruct (C _ _ eq_refl).
  - injection H as _ <-. now destruct (S _ _ eq_refl).
Qed.

Example any_getGA4Identifiers_rejects :
  Any.getGA4Identifiers (str "G-ABCDEF1234") (Some 50%Z)
    (fun _ => any_page (str "_ga=%")
                       (rejecting_gtag (UserError (str "denied"))))
    0
  = Some (0%N, Throw URIError).
Proof. reflexivity. Qed.

Lemma getClientId_unavailable (measurementId : jsstring) (timeout : option Z)
    (w : world) (now : N) :
  live_api_available measurementId (w now) = false ->
  settled (getClientId measurementId timeout w now)
  = Some (now, cmap JStr (result (getClientIdFromCookie (w now)))).
Proof.
  exact (resolver_unavailable
           (str "client_id") (str "Error getting client_id from gtag:")
           (str "Native gtag client_id failed, falling back to cookie:")
           (fun _ => getClientIdFromCookie)
           (fun _ => getClientIdFromCookie_trace)
           measurementId timeout w now).
Qed.

Lemma getSessionId_unavailable (measurementId : jsstring)
    (timeout : option Z) (w : world) (now : N) :
  live_api_available measurementId (w now) = false ->
  settled (getSessionId measurementId timeout w now)
  = Some (now, cmap JStr (result (getSessionIdFromCookie measurementId
                                    (w now)))).
Proof.
  exact (resolver_unavailable
           (str "session_id") (str "Error getting session_id from gtag:")
           (str "Native gtag session_id failed, falling back to cookie:")
           getSessionIdFromCookie getSessionIdFromCookie_trace
           measurementId timeout w now).
Qed.

(** X11: without the live API the two combined accessors agree.  For every
    measurement id, timeout, world and starting instant at which the live
    API is not available, the promise of [getGA4Identifiers] settles in its
    first turn, and with exactly what [getGA4IdentifiersSync] returns or
    throws on the same globals: the same two values, tagged [cookie] or
    [not-found], or the same exception. *)
Theorem getGA4Identifiers_agrees_with_sync
    (measurementId : jsstring) (timeout : option Z) (w : world) (now : N) :
  live_api_available measurementId (w now) = false ->
  getGA4Identifiers measurementId timeout w now
  = Some (now, result (getGA4IdentifiersSync measurementId (w now))).
Proof.
  intros H. unfold getGA4Identifiers.
  rewrite (getClientId_unavailable _ timeout _ _ H).
  rewrite (getSessionId_unavailable _ timeout _ _ H).
  rewrite getGA4IdentifiersSync_run.
  destruct (result (getClientIdFromCookie (w now))) as [c|x];
    destruct (result (getSessionIdFromCookie measurementId (w now)))
      as [s|y]; simpl; rewrite ?N.leb_refl, ?N.max_id; try reflexivity.
  rewrite getGA4Identifiers_resume_run. unfold result; simpl.
  unfold post_hoc_tag. rewrite H.
  now destruct c, s.
Qed.

(** X11, at a concrete input: no live API, a client id in the cookie. *)
Lemma getGA4Identifiers_agrees_with_sync_witness :
  getGA4Identifiers (str "G-ABCDEF1234") None
    (still (cookie_env (str "_ga=GA1.2.3.4; _ga_ABCDEF1234=GS1.1.9988.5"))) 7
  = Some (7%N,
          result (getGA4IdentifiersSync (str "G-ABCDEF1234")
                    (still (cookie_env
                              (str "_ga=GA1.2.3.4; _ga_ABCDEF1234=GS1.1.9988.5"))
                           7%N))).
Proof.
  apply (getGA4Identifiers_agrees_with_sync (str "G-ABCDEF1234") None
           (still (cookie_env
                     (str "_ga=GA1.2.3.4; _ga_ABCDEF1234=GS1.1.9988.5")))
           7%N).
  reflexivity.
Defined.

(** X12: the source tag can name the wrong path.  When the live API is
    available but never invokes its callback, both values come from the
    cookie, read when the timer fires; yet if the availability check still
    holds at that instant, every non-empty value is tagged [gtag-api], not
    [cookie]. *)
Theorem getGA4Identifiers_tags_cookie_values_gtag_api
    (measurementId : jsstring) (timeout : option Z) (w : world) (now : N)
    (f : jsstring -> jsstring -> gtag_run) (c s : jsstring) :
  window_gtag (w now) = Callable f ->
  window_google_tag_manager (w now) = true ->
  measurementId <> [] ->
  (forall property,
   sync_values (f measurementId property) = [] /\
   sync_throw (f measurementId property) = None /\
   later_values (f measurementId property) = []) ->
  live_api_available measurementId (w (now + timer_delay timeout)%N) = true ->
  result (getClientIdFromCookie (w (now + timer_delay timeout)%N))
  = Normal c ->
  result (getSessionIdFromCookie measurementId
            (w (now + timer_delay timeout)%N)) = Normal s ->
  getGA4Identifiers measurementId timeout w now
  = Some ((now + timer_delay timeout)%N,
          Normal {| clientId := JStr c; sessionId := JStr s;
                    source :=
                      {| source_clientId :=
                           match c with
                           | [] => str "not-found"
                           | _ :: _ => str "gtag-api"
                           end;
                         source_sessionId :=
                           match s with
                           | [] => str "not-found"
                           | _ :: _ => str "gtag-api"
                           end |} |}).
Proof.
  intros Hg Hm Hid Hsilent Ha Hc Hs.
  destruct (Hsilent (str "client_id")) as (C1 & C2 & C3).
  destruct (Hsilent (str "session_id")) as (S1 & S2 & S3).
  destruct (resolver_callback_never_fires
              (str "client_id") (str "Error getting client_id from gtag:")
              (str "Native gtag client_id failed, falling back to cookie:")
              (fun _ => getClientIdFromCookie)
              measurementId timeout w now f Hg Hm Hid C1 C3)
    as (tc & _ & Ec & Tc).
  destruct (resolver_callback_never_fires
              (str "session_id") (str "Error getting session_id from gtag:")
              (str "Native gtag session_id failed, falling back to cookie:")
              getSessionIdFromCookie
              measurementId timeout w now f Hg Hm Hid S1 S3)
    as (ts & _ & Es & Ts).
  rewrite (Tc C2) in Ec. rewrite (Ts S2) in Es. rewrite Hc in Ec.
  rewrite Hs in Es.
  unfold getGA4Identifiers.
  change (settled (getClientId measurementId timeout w now))
    with (settled (run_async
                     (resolver_body (str "client_id")
                        (str "Error getting client_id from gtag:")
                        (str "Native gtag client_id failed, falling back to cookie:")
                        (fun _ => getClientIdFromCookie)
                        measurementId timeout) w now)).
  change (settled (getSessionId measurementId timeout w now))
    with (settled (run_async
                     (resolver_body (str "session_id")
                        (str "Error getting session_id from gtag:")
                        (str "Native gtag session_id failed, falling back to cookie:")
                        getSessionIdFromCookie
                        measurementId timeout) w now)).
  rewrite Ec, Es. simpl all2. rewrite N.max_id. cbv beta iota.
  rewrite getGA4Identifiers_resume_run. unfold result; simpl snd.
  unfold post_hoc_tag. rewrite Ha.
  now destruct c, s.
Qed.

(** X12, at a concrete input: a silent live API, a client id in the cookie
    and no session cookie. *)
Lemma getGA4Identifiers_tags_cookie_values_gtag_api_witness :
  getGA4Identifiers (str "G-ABCDEF1234") (Some 50%Z)
    (still (page (str "_ga=GA1.2.3.4") silent_gtag)) 0
  = Some ((0 + timer_delay (Some 50%Z))%N,
          Normal {| clientId := JStr (str "3.4"); sessionId := JStr [];
                    source := {| source_clientId := str "gtag-api";
                                 source_sessionId := str "not-found" |} |}).
Proof.
  apply (getGA4Identifiers_tags_cookie_values_gtag_api
           (str "G-ABCDEF1234") (Some 50%Z)
           (still (page (str "_ga=GA1.2.3.4") silent_gtag)) 0%N
           (fun _ _ => {| sync_values := []; sync_throw := None;
                          later_values := [] |})
           (str "3.4") []);
    try reflexivity; [discriminate|now intros].
Defined.

(** A measurement id with pattern characters in it is looked up letter by
    letter all the same. *)
Example getSessionIdFromCookie_pattern_characters :
  result (getSessionIdFromCookie (str "G-A.B*")
            (cookie_env (str "_ga_AxBBB=GS1.1.11.1; _ga_A.B*=GS1.1.77.1")))
  = Normal (str "77").
Proof. reflexivity. Qed.
